(** * SafeBed: the nearby-location retrieval and filtering pipeline

    A shallow embedding of [src/utils/hours.ts], [src/utils/geo.ts] and
    [src/app/api/locations/route.ts], and of the parts of [src/app/page.tsx]
    and [src/components/map-view.tsx] that build the request and place the
    results, followed by the properties of the open-hours evaluator, the
    coordinate resolver, the filter-and-rank stage, the request handler and
    the page.

    Modelling conventions.
    - A JavaScript number is a value of [number]: NaN, the two infinities, or
      a finite value carried as a rational.  The result of an addition, a
      subtraction, a multiplication or a division is rounded to 53
      significant bits, ties to even, which is the binary64 result as long
      as that result is a normal number: an arithmetic result that leaves
      the normal range (overflow to an infinity, gradual underflow) is not
      modelled.  The number parsers round to binary64 in full, with both.
      The sign of zero is not modelled.
    - A string is a sequence of code units below 256.
    - [null] and [undefined] of an optional field are both [None].
    - The wall clock, the store client and the diagnostics channel are
      explicit: a handler runs in [IO], a state monad over [World].
    - The trigonometric library and [JSON.parse] belong to the platform and
      are fields of a [Platform] record the development is parametric in; the
      bundled fallback dataset, which is not part of the sources at hand, is
      a section variable. *)

From Stdlib Require Import ZArith QArith Qround Qpower Lqa String Ascii List
  Sorted Permutation.
From stdpp Require Import gmap strings.

Local Open Scope string_scope.
Local Open Scope list_scope.
Local Open Scope Z_scope.

(** ** JavaScript numbers *)

Inductive number : Type :=
| NaN
| PosInf
| NegInf
| Fin (q : Q).

Definition Int (z : Z) : number := Fin (inject_Z z).

(** Below [2 ^ 53] in magnitude: an integer that binary64 holds exactly. *)
Definition safeInteger (z : Z) : Prop := - 2 ^ 53 < z < 2 ^ 53.

Definition isNaN (a : number) : bool :=
  match a with NaN => true | _ => false end.

Definition isFinite (a : number) : bool :=
  match a with Fin _ => true | _ => false end.

Definition Qsign (q : Q) : comparison := (q ?= 0)%Q.

(** *** Rounding to binary64 *)

(** The nearest integer, a tie going to the even one. *)
Definition roundHalfEven (x : Q) : Z :=
  let f := Qfloor x in
  match (x - inject_Z f ?= 1 # 2)%Q with
  | Lt => f
  | Gt => f + 1
  | Eq => if Z.even f then f else f + 1
  end.

(** The exponent of the binade of a positive rational:
    [2 ^ ilog2 x <= x < 2 ^ (ilog2 x + 1)]. *)
Definition ilog2 (x : Q) : Z :=
  let k := Z.log2 (Qnum x) - Z.log2 (Zpos (Qden x)) in
  if Qle_bool (2 ^ k)%Q x then k else k - 1.

(** [x] rounded to the nearest multiple of [2 ^ e], in lowest terms. *)
Definition roundAt (e : Z) (x : Q) : Q :=
  Qred (inject_Z (roundHalfEven (x / 2 ^ e)) * 2 ^ e).

(** A rational rounded to 53 significant bits: the binary64 value nearest
    to it when that value is a normal number. *)
Definition round53 (x : Q) : Q :=
  match Qsign x with
  | Eq => 0%Q
  | Gt => roundAt (ilog2 x - 52) x
  | Lt => (- roundAt (ilog2 (- x) - 52) (- x))%Q
  end.

Definition num_neg (a : number) : number :=
  match a with
  | NaN => NaN
  | PosInf => NegInf
  | NegInf => PosInf
  | Fin q => Fin (- q)
  end.

Definition num_add (a b : number) : number :=
  match a, b with
  | NaN, _ | _, NaN => NaN
  | PosInf, NegInf | NegInf, PosInf => NaN
  | PosInf, _ | _, PosInf => PosInf
  | NegInf, _ | _, NegInf => NegInf
  | Fin p, Fin q => Fin (round53 (p + q))
  end.

Definition num_sub (a b : number) : number := num_add a (num_neg b).

Definition signed_inf (s : comparison) : number :=
  match s with Gt => PosInf | Lt => NegInf | Eq => NaN end.

Definition num_mul (a b : number) : number :=
  match a, b with
  | NaN, _ | _, NaN => NaN
  | PosInf, PosInf | NegInf, NegInf => PosInf
  | PosInf, NegInf | NegInf, PosInf => NegInf
  | PosInf, Fin q | Fin q, PosInf => signed_inf (Qsign q)
  | NegInf, Fin q | Fin q, NegInf => signed_inf (CompOpp (Qsign q))
  | Fin p, Fin q => Fin (round53 (p * q))
  end.

Definition num_div (a b : number) : number :=
  match a, b with
  | NaN, _ | _, NaN => NaN
  | PosInf, Fin q =>
      match Qsign q with Lt => NegInf | _ => PosInf end
  | NegInf, Fin q =>
      match Qsign q with Lt => PosInf | _ => NegInf end
  | Fin _, (PosInf | NegInf) => Fin 0
  | Fin p, Fin q =>
      match Qsign q with
      | Eq => signed_inf (Qsign p)
      | _ => Fin (round53 (p / q))
      end
  | _, _ => NaN
  end.

(** The binary64 value nearest to a positive rational: 53 significant bits,
    fewer below [2 ^ -1022] where the spacing stays [2 ^ -1074], and
    positive infinity when the rounded value reaches [2 ^ 1024]. *)
Definition nearest64 (x : Q) : number :=
  let y := roundAt (Z.max (ilog2 x - 52) (- 1074)) x in
  if Qle_bool (2 ^ 1024)%Q y then PosInf else Fin y.

(** The binary64 value nearest to a rational: what the platform reads a
    decimal literal as. *)
Definition round64 (x : Q) : number :=
  match Qsign x with
  | Eq => Fin 0
  | Gt => nearest64 x
  | Lt => num_neg (nearest64 (- x))
  end.

(** [a < b]; every comparison with NaN is false. *)
Definition num_lt (a b : number) : bool :=
  match a, b with
  | NaN, _ | _, NaN => false
  | _, NegInf | PosInf, _ => false
  | NegInf, _ | _, PosInf => true
  | Fin p, Fin q => match (p ?= q)%Q with Lt => true | _ => false end
  end.

(** [a <= b]. *)
Definition num_le (a b : number) : bool :=
  match a, b with
  | NaN, _ | _, NaN => false
  | NegInf, _ | _, PosInf => true
  | _, NegInf | PosInf, _ => false
  | Fin p, Fin q => match (p ?= q)%Q with Gt => false | _ => true end
  end.

Definition num_gt (a b : number) : bool := num_lt b a.
Definition num_ge (a b : number) : bool := num_le b a.

(** Numeric equality of two values, up to the representation of a rational. *)
Definition num_eq (a b : number) : Prop :=
  match a, b with
  | NaN, NaN | PosInf, PosInf | NegInf, NegInf => True
  | Fin p, Fin q => (p == q)%Q
  | _, _ => False
  end.

(** [Math.round]: the nearest integer, halves towards positive infinity. *)
Definition Math_round (a : number) : number :=
  match a with
  | Fin q => Int (Qfloor (q + (1 # 2)))
  | _ => a
  end.

(** [a ?? b] *)
Definition nullish {A : Type} (a : option A) (b : A) : A :=
  match a with Some x => x | None => b end.

Infix "??" := nullish (at level 45, left associativity).

(** ** Strings and the platform's number parsers *)

Definition charCode (c : ascii) : Z := Z.of_nat (nat_of_ascii c).

(** White space and line terminators skipped by [parseInt] and [parseFloat]. *)
Definition isWhiteSpace (c : ascii) : bool :=
  let n := charCode c in
  ((9 <=? n) && (n <=? 13)) || (n =? 32)%Z || (n =? 160)%Z.

Definition digitOf (c : ascii) : option Z :=
  let n := charCode c in
  if (48 <=? n) && (n <=? 57) then Some (n - 48) else None.

Fixpoint trimStart (s : string) : string :=
  match s with
  | String c r => if isWhiteSpace c then trimStart r else s
  | EmptyString => s
  end.

(** Reads the longest run of decimal digits: its value on top of [acc], the
    number of digits read on top of [n], and the rest of the string. *)
Fixpoint readDigits (s : string) (acc : Z) (n : nat) : Z * nat * string :=
  match s with
  | String c r =>
      match digitOf c with
      | Some d => readDigits r (acc * 10 + d) (S n)
      | None => (acc, n, s)
      end
  | EmptyString => (acc, n, s)
  end.

(** An optional leading sign: [true] for a minus. *)
Definition readSign (s : string) : bool * string :=
  match s with
  | String "-" r => (true, r)
  | String "+" r => (false, r)
  | _ => (false, s)
  end.

(** [Number.parseInt(s, 10)]: the integer read, as the binary64 value
    nearest to it. *)
Definition parseInt (s : string) : number :=
  let '(negative, digits) := readSign (trimStart s) in
  match readDigits digits 0 0 with
  | (_, O, _) => NaN
  | (v, S _, _) => round64 (inject_Z (if negative then - v else v))
  end.

Definition startsWith (p s : string) : bool := String.prefix p s.

(** The exponent part of a decimal literal, read only when complete. *)
Definition readExponent (s : string) : Z :=
  match s with
  | String c r =>
      if (Ascii.eqb c "e" || Ascii.eqb c "E")%bool then
        let '(negative, digits) := readSign r in
        match readDigits digits 0 0 with
        | (_, O, _) => 0
        | (v, S _, _) => if negative then - v else v
        end
      else 0
  | EmptyString => 0
  end.

(** [m * 10 ^ e] as a rational. *)
Definition scale10 (m e : Z) : Q :=
  if 0 <=? e then inject_Z (m * 10 ^ e)
  else Qmake m (Z.to_pos (10 ^ (- e))).

(** [Number.parseFloat(s)]: the longest prefix that is a decimal literal,
    as the binary64 value nearest to it. *)
Definition parseFloat (s : string) : number :=
  let '(negative, body) := readSign (trimStart s) in
  if startsWith "Infinity" body then (if negative then NegInf else PosInf)
  else
    let '(ip, ni, r1) := readDigits body 0 0 in
    let '(m, nf, r2) :=
      match r1 with
      | String "." r => readDigits r ip 0
      | _ => (ip, O, r1)
      end in
    match (ni + nf)%nat with
    | O => NaN
    | S _ =>
        let q := scale10 m (readExponent r2 - Z.of_nat nf) in
        round64 (if negative then (- q)%Q else q)
    end.

(** [s.split(sep)] for a one-character separator; never empty. *)
Fixpoint split (sep : ascii) (s : string) : list string :=
  match s with
  | EmptyString => [EmptyString]
  | String c r =>
      if Ascii.eqb c sep then EmptyString :: split sep r
      else
        match split sep r with
        | h :: t => String c h :: t
        | [] => [String c EmptyString]
        end
  end.

Definition lowerChar (c : ascii) : ascii :=
  let n := charCode c in
  if ((65 <=? n) && (n <=? 90))
     || ((192 <=? n) && (n <=? 222) && negb (n =? 215)%Z)
  then ascii_of_nat (nat_of_ascii c + 32) else c.

(** [s.toLowerCase()] *)
Fixpoint toLowerCase (s : string) : string :=
  match s with
  | String c r => String (lowerChar c) (toLowerCase r)
  | EmptyString => EmptyString
  end.

(** Truthiness of a nullable string: present and not empty. *)
Definition truthy (s : option string) : bool :=
  match s with
  | Some (String _ _) => true
  | _ => false
  end.

(** ** src/utils/hours.ts *)

Abbreviation HoursDayKey := string (only parsing).
Abbreviation HoursSchedule :=
  (gmap string (list (string * string))) (only parsing).

(** The part of a [Date] the evaluator reads, in local time. *)
Record Date : Type := mkDate {
  getDay : nat;
  getHours : Z;
  getMinutes : Z
}.

Definition dayKeys : list HoursDayKey :=
  ["sun"; "mon"; "tue"; "wed"; "thu"; "fri"; "sat"].

Definition MINUTES_IN_DAY : number := Int (24 * 60).

Definition hourStr (time : string) : string :=
  match split ":" time with h :: _ => h | [] => EmptyString end.

Definition minuteStr (time : string) : option string :=
  match split ":" time with _ :: m :: _ => Some m | _ => None end.

Definition toMinutes (time : string) : number :=
  let hours := parseInt (hourStr time) in
  let minutes := parseInt (minuteStr time ?? "0") in
  num_add (num_mul hours (Int 60)) minutes.

Definition normalize (minuteMark : number) : number :=
  if num_lt minuteMark (Int 0) then num_add minuteMark MINUTES_IN_DAY
  else if num_ge minuteMark MINUTES_IN_DAY
  then num_sub minuteMark MINUTES_IN_DAY
  else minuteMark.

Definition intervalContains (start end_ current : number) : bool :=
  if num_le start end_ then num_ge current start && num_lt current end_
  else (* Overnight interval *)
    num_ge current start || num_lt current end_.

(** The key looked up for the reference date; an index outside [dayKeys]
    yields [undefined], which as a property key reads ["undefined"]. *)
Definition todayKey (referenceDate : Date) : string :=
  default "undefined" (dayKeys !! getDay referenceDate).

Definition minutesNow (referenceDate : Date) : number :=
  num_add (num_mul (Int (getHours referenceDate)) (Int 60))
          (Int (getMinutes referenceDate)).

(** [hours[todayKey]] *)
Definition todaysHours (hours : HoursSchedule) (referenceDate : Date)
  : option (list (string * string)) :=
  hours !! todayKey referenceDate.

Definition isOpenNow (hours : option HoursSchedule) (referenceDate : Date)
  : bool :=
  match hours with
  | None => false
  | Some hours =>
      match todaysHours hours referenceDate with
      | None | Some [] => false
      | Some todaysHours =>
          existsb
            (fun '(start, end_) =>
               let startMinutes := normalize (toMinutes start) in
               let endMinutes := normalize (toMinutes end_) in
               intervalContains startMinutes endMinutes
                 (minutesNow referenceDate))
            todaysHours
      end
  end.

(** A date as the platform produces it. *)
Definition valid_date (d : Date) : Prop :=
  (getDay d < 7)%nat /\ 0 <= getHours d < 24 /\ 0 <= getMinutes d < 60.

(** ** The platform *)

(** The library functions the sources call and this development leaves
    uninterpreted. *)

(** What the resolver observes of a [coordinates] property.  It tests that
    the value is an array and how long it is, and hands on the first two
    elements without looking at them: the sources assert the type
    [[number, number]] by a cast that checks nothing.  An element is
    [None] when it is [null] or [undefined]; any other element is carried
    as the number it stands for in arithmetic, which is all the sources do
    with a coordinate besides comparing it with [null]. *)
Inductive CoordinatesValue : Type :=
| NotAnArray
| ArrayOf (elements : list (option number)).

(** What the resolver observes of a value returned by [JSON.parse]:
    reading a property of [null] throws, any other value has the property as
    an array, as something else, or not at all. *)
Inductive JsonValue : Type :=
| JsonNull
| JsonWith (coordinates : option CoordinatesValue).

Record Platform : Type := mkPlatform {
  Math_PI : number;
  Math_sin : number -> number;
  Math_cos : number -> number;
  Math_sqrt : number -> number;
  Math_atan2 : number -> number -> number;
  (** [None] when [JSON.parse] throws a syntax error. *)
  JSON_parse : string -> option JsonValue
}.

(** ** src/types/locations.ts and the row type of route.ts *)

(** The [geom] field of a row is of type [unknown]; the resolver tells these
    shapes apart: a falsy value (absent, [null], the empty string), an
    object with or without a [coordinates] property, a string, and any other
    truthy value. *)
Inductive Geom : Type :=
| GeomFalsy
| GeomObject (coordinates : option CoordinatesValue)
| GeomString (text : string)
| GeomOther.

Module Row.
Record t : Type := mk {
  id : string;
  name : string;
  category : string;
  phone : option string;
  website : option string;
  address : option string;
  notes : option string;
  meters : option number;
  capacity : option number;
  beds_available : option number;
  hours : option HoursSchedule;
  accessible : option bool;
  pets_allowed : option bool;
  gender_restriction : option string;
  lgbtq_friendly : option bool;
  updated_at : option string;
  last_verified_at : option string;
  source : option string;
  latitude : option number;
  longitude : option number;
  lat : option number;
  lng : option number;
  geom : Geom
}.
End Row.

Abbreviation NearbyLocationRow := Row.t (only parsing).

Module Loc.
Record t : Type := mk {
  id : string;
  name : string;
  category : string;
  phone : option string;
  website : option string;
  address : option string;
  notes : option string;
  meters : option number;
  capacity : option number;
  beds_available : option number;
  hours : option HoursSchedule;
  accessible : option bool;
  pets_allowed : option bool;
  gender_restriction : option string;
  lgbtq_friendly : option bool;
  updated_at : option string;
  last_verified_at : option string;
  source : option string;
  latitude : option number;
  longitude : option number
}.

(** [{ ...record, meters: m }] *)
Definition with_meters (record : t) (m : option number) : t :=
  mk (id record) (name record) (category record) (phone record)
     (website record) (address record) (notes record) m (capacity record)
     (beds_available record) (hours record) (accessible record)
     (pets_allowed record) (gender_restriction record)
     (lgbtq_friendly record) (updated_at record) (last_verified_at record)
     (source record) (latitude record) (longitude record).
End Loc.

Abbreviation LocationRecord := Loc.t (only parsing).

(** ** src/utils/geo.ts *)

Section Geo.
Context (P : Platform).

Definition EARTH_RADIUS_KM : number := Int 6371.

Definition toRadians (value : number) : number :=
  num_div (num_mul value (Math_PI P)) (Int 180).

Definition distanceInKm (originLat originLng targetLat targetLng : number)
  : number :=
  let dLat := toRadians (num_sub targetLat originLat) in
  let dLng := toRadians (num_sub targetLng originLng) in
  let a :=
    num_add
      (num_mul (Math_sin P (num_div dLat (Int 2)))
               (Math_sin P (num_div dLat (Int 2))))
      (num_mul
         (num_mul
            (num_mul (Math_cos P (toRadians originLat))
                     (Math_cos P (toRadians targetLat)))
            (Math_sin P (num_div dLng (Int 2))))
         (Math_sin P (num_div dLng (Int 2)))) in
  let c :=
    num_mul (Int 2)
      (Math_atan2 P (Math_sqrt P a) (Math_sqrt P (num_sub (Int 1) a))) in
  num_mul EARTH_RADIUS_KM c.

Definition attachDistance (record : LocationRecord)
  (originLat originLng : number) : LocationRecord :=
  match Loc.latitude record, Loc.longitude record with
  | Some latitude, Some longitude =>
      let km := distanceInKm originLat originLng latitude longitude in
      Loc.with_meters record (Some (Math_round (num_mul km (Int 1000))))
  | _, _ => Loc.with_meters record None
  end.

End Geo.

(** ** The world a request handler runs in *)

(** The arguments of the [nearby_locations] remote procedure. *)
Module Rpc.
Record t : Type := mk {
  lat : number;
  lng : number;
  radius_km : number;
  cat : option string;
  only_open : bool;
  need_accessible : option bool;
  need_pets : option bool;
  gender_focus : option string
}.
End Rpc.

(** How the awaited call ends: it throws, or it resolves to
    [{ data, error }]. *)
Inductive RpcOutcome : Type :=
| RpcThrew
| RpcResolved (data : option (list NearbyLocationRow)) (error : option string).

(** What a handler does to its surroundings.  [FallbackUsed] is a ghost
    event recording that the bundled dataset was read. *)
Inductive Event : Type :=
| RpcCalled (args : Rpc.t)
| Warned (message : string)
| FallbackUsed.

Record Env : Type := mkEnv {
  (** the result of the [k]-th [new Date()] *)
  clock : nat -> Date;
  (** [getSupabaseClient()]: the store, if one is configured *)
  getSupabaseClient : option (Rpc.t -> RpcOutcome)
}.

Record World : Type := mkWorld {
  ticks : nat;
  log : list Event
}.

Definition IO (A : Type) : Type := World -> A * World.

Definition ret {A : Type} (a : A) : IO A := fun w => (a, w).

Definition bind {A B : Type} (m : IO A) (k : A -> IO B) : IO B :=
  fun w => let '(a, w') := m w in k a w'.

Notation "'let!' x ':=' m 'in' k" := (bind m (fun x => k))
  (at level 10, x name, m at level 100, k at level 200).
Notation "'do!' m 'in' k" := (bind m (fun _ => k))
  (at level 10, m at level 100, k at level 200).

Definition emit (e : Event) : IO unit :=
  fun w => (tt, mkWorld (ticks w) (log w ++ [e])).

(** [new Date()] *)
Definition newDate (env : Env) : IO Date :=
  fun w => (clock env (ticks w), mkWorld (S (ticks w)) (log w)).

(** [isOpenNow(hours)] with the reference date left to its default. *)
Definition isOpenNowDefault (env : Env) (hours : option HoursSchedule)
  : IO bool :=
  let! referenceDate := newDate env in
  ret (isOpenNow hours referenceDate).

(** [array.filter(callback)], the callback run on each element in order. *)
Fixpoint Array_filter {A : Type} (callback : A -> IO bool) (l : list A)
  : IO (list A) :=
  match l with
  | [] => ret []
  | x :: rest =>
      let! keep := callback x in
      let! kept := Array_filter callback rest in
      ret (if keep then x :: kept else kept)
  end.

(** The comparator's verdict: [x] goes after [y] when the result is
    positive; NaN counts as zero. *)
Definition goesAfter {A : Type} (comparefn : A -> A -> number) (x y : A)
  : bool :=
  num_gt (comparefn x y) (Int 0).

Fixpoint insertSorted {A : Type} (comparefn : A -> A -> number) (x : A)
  (l : list A) : list A :=
  match l with
  | [] => [x]
  | y :: rest =>
      if goesAfter comparefn x y then y :: insertSorted comparefn x rest
      else x :: l
  end.

(** [array.sort(comparefn)]: a stable sort, here by insertion; every stable
    sort gives the same result under a comparator that is a consistent
    ordering.  Under one that is not, the platform leaves the order open and
    the model gives one admissible outcome. *)
Definition Array_sort {A : Type} (comparefn : A -> A -> number) (l : list A)
  : list A :=
  foldr (insertSorted comparefn) [] l.

(** ** src/app/api/locations/route.ts *)

Definition DEFAULT_RADIUS_KM : number := Int 5.
Definition MAX_RESULTS : nat := 50.

Definition parseNumber (value : option string) : option number :=
  match value with
  | None => None
  | Some value =>
      let parsed := parseFloat value in
      if isNaN parsed then None else Some parsed
  end.

Definition includes (l : list string) (s : string) : bool :=
  existsb (String.eqb s) l.

Definition parseBooleanParam (value : option string) : option bool :=
  match value with
  | None => None
  | Some value =>
      let normalized := toLowerCase value in
      if includes ["true"; "1"; "yes"; "y"] normalized then Some true
      else if includes ["false"; "0"; "no"; "n"] normalized then Some false
      else None
  end.

(** The filter options handed to [applyFilters]. *)
Module Filters.
Record t : Type := mk {
  category : option string;
  openNow : bool;
  accessible : option bool;
  pets : option bool;
  gender : option string;
  radiusKm : number;
  lat : number;
  lng : number
}.
End Filters.

Inductive Body : Type :=
| ErrorBody (error : string)
| ResultsBody (results : list LocationRecord).

Record Response : Type := mkResponse {
  status : Z;
  body : Body
}.

(** [NextResponse.json(body)] and [NextResponse.json(body, { status })] *)
Definition NextResponse_json (b : Body) (init : option Z) : Response :=
  mkResponse (init ?? 200) b.

(** [searchParams.get(name)]: the first value given for [name]. *)
Fixpoint searchParams_get (searchParams : list (string * string))
  (name : string) : option string :=
  match searchParams with
  | [] => None
  | (k, v) :: rest =>
      if String.eqb k name then Some v else searchParams_get rest name
  end.

Definition strictEqOpt (a b : option bool) : bool :=
  match a, b with
  | Some x, Some y => Bool.eqb x y
  | None, None => true
  | _, _ => false
  end.

(** [category && record.category !== category] *)
Definition categoryMismatch (category : option string)
  (record : LocationRecord) : bool :=
  match category with
  | Some c => truthy category && negb (String.eqb (Loc.category record) c)
  | None => false
  end.

(** [flag !== null && value !== flag] *)
Definition flagMismatch (flag value : option bool) : bool :=
  match flag with
  | Some _ => negb (strictEqOpt value flag)
  | None => false
  end.

(** [gender && record.gender_restriction &&
     record.gender_restriction !== gender] *)
Definition genderMismatch (gender : option string) (record : LocationRecord)
  : bool :=
  match gender, Loc.gender_restriction record with
  | Some g, Some r =>
      truthy gender && truthy (Loc.gender_restriction record)
      && negb (String.eqb r g)
  | _, _ => false
  end.

(** [record.meters != null && Number.isFinite(record.meters) &&
     record.meters > radiusKm * 1000] *)
Definition radiusExceeded (radiusKm : number) (record : LocationRecord)
  : bool :=
  match Loc.meters record with
  | Some meters =>
      isFinite meters && num_gt meters (num_mul radiusKm (Int 1000))
  | None => false
  end.

(** [a.meters ?? Number.POSITIVE_INFINITY] *)
Definition distanceOf (record : LocationRecord) : number :=
  Loc.meters record ?? PosInf.

Definition byDistance (a b : LocationRecord) : number :=
  let distanceA := distanceOf a in
  let distanceB := distanceOf b in
  num_sub distanceA distanceB.

Section Route.
Context (P : Platform).

Definition extractCoordinates (row : NearbyLocationRow)
  : option number * option number :=
  match Row.latitude row, Row.longitude row with
  | Some latitude, Some longitude => (Some latitude, Some longitude)
  | _, _ =>
      match Row.lat row, Row.lng row with
      | Some lat, Some lng => (Some lat, Some lng)
      | _, _ =>
          match Row.geom row with
          | GeomObject (Some (ArrayOf (lng :: lat :: _))) => (lat, lng)
          | GeomString (String _ _ as text) =>
              match JSON_parse P text with
              | Some (JsonWith (Some (ArrayOf (lng :: lat :: _)))) =>
                  (lat, lng)
              | _ => (* no usable pair, or the parse error is ignored *)
                  (None, None)
              end
          | _ => (None, None)
          end
      end
  end.

Definition toLocationRecord (row : NearbyLocationRow) : LocationRecord :=
  let '(latitude, longitude) := extractCoordinates row in
  Loc.mk (Row.id row) (Row.name row) (Row.category row) (Row.phone row)
    (Row.website row) (Row.address row) (Row.notes row) (Row.meters row)
    (Row.capacity row) (Row.beds_available row) (Row.hours row)
    (Row.accessible row) (Row.pets_allowed row) (Row.gender_restriction row)
    (Row.lgbtq_friendly row) (Row.updated_at row) (Row.last_verified_at row)
    (Row.source row) latitude longitude.

(** The distance fill of [applyFilters]: its [map] callback. *)
Definition fillDistance (c : Filters.t) (record : LocationRecord)
  : LocationRecord :=
  match Loc.meters record with
  | Some _ => record
  | None => attachDistance P record (Filters.lat c) (Filters.lng c)
  end.

(** The predicate of [applyFilters]: its [filter] callback. *)
Definition keepRecord (env : Env) (c : Filters.t) (record : LocationRecord)
  : IO bool :=
  if categoryMismatch (Filters.category c) record then ret false
  else if flagMismatch (Filters.accessible c) (Loc.accessible record)
  then ret false
  else if flagMismatch (Filters.pets c) (Loc.pets_allowed record)
  then ret false
  else if genderMismatch (Filters.gender c) record then ret false
  else if Filters.openNow c then
    let! open := isOpenNowDefault env (Loc.hours record) in
    if negb open then ret false
    else ret (negb (radiusExceeded (Filters.radiusKm c) record))
  else ret (negb (radiusExceeded (Filters.radiusKm c) record)).

Definition applyFilters (env : Env) (records : list LocationRecord)
  (c : Filters.t) : IO (list LocationRecord) :=
  let filled := map (fillDistance c) records in
  let! kept := Array_filter (keepRecord env c) filled in
  ret (take MAX_RESULTS (Array_sort byDistance kept)).

Definition buildResponse (env : Env) (records : list LocationRecord)
  (filters : Filters.t) : IO Response :=
  let! filtered := applyFilters env records filters in
  ret (NextResponse_json (ResultsBody filtered) None).

(** The bundled dataset of [src/data/mock-locations.ts]. *)
Context (mockLocations : list LocationRecord).

Definition fallbackRecords : list LocationRecord :=
  map (fun record => Loc.with_meters record None) mockLocations.

(** The [filterOptions] object built from the query string. *)
Definition filterOptions (searchParams : list (string * string))
  (lat lng : number) : Filters.t :=
  let radiusKm :=
    parseNumber (searchParams_get searchParams "radius_km")
    ?? DEFAULT_RADIUS_KM in
  let category := searchParams_get searchParams "category" in
  let openNowFlag :=
    parseBooleanParam (searchParams_get searchParams "open_now") ?? false in
  let accessibleFlag :=
    parseBooleanParam (searchParams_get searchParams "accessible") in
  let petsFlag := parseBooleanParam (searchParams_get searchParams "pets") in
  let gender := searchParams_get searchParams "gender" in
  let genderFilter := gender in
  Filters.mk category openNowFlag accessibleFlag petsFlag genderFilter
    radiusKm lat lng.

(** The arguments of the remote call, the same values under the store's
    names. *)
Definition rpcArguments (c : Filters.t) : Rpc.t :=
  Rpc.mk (Filters.lat c) (Filters.lng c) (Filters.radiusKm c)
    (Filters.category c) (Filters.openNow c) (Filters.accessible c)
    (Filters.pets c) (Filters.gender c).

(** The end of [GET], reached when the store gave no rows: the response is
    built from the bundled dataset, each record's distance unset. *)
Definition fallbackResponse (env : Env) (filterOptions : Filters.t)
  : IO Response :=
  do! emit FallbackUsed in
  buildResponse env fallbackRecords filterOptions.

Definition GET (env : Env) (searchParams : list (string * string))
  : IO Response :=
  let lat := parseNumber (searchParams_get searchParams "lat") in
  let lng := parseNumber (searchParams_get searchParams "lng") in
  match lat, lng with
  | Some lat, Some lng =>
      let filterOptions := filterOptions searchParams lat lng in
      match getSupabaseClient env with
      | Some supabase =>
          do! emit (RpcCalled (rpcArguments filterOptions)) in
          match supabase (rpcArguments filterOptions) with
          | RpcResolved _ (Some _) =>
              do! emit (Warned "Supabase RPC nearby_locations error:") in
              fallbackResponse env filterOptions
          | RpcResolved (Some data) None =>
              let records := map toLocationRecord data in
              buildResponse env records filterOptions
          | RpcResolved None None => fallbackResponse env filterOptions
          | RpcThrew =>
              do! emit (Warned "Supabase RPC nearby_locations threw:") in
              fallbackResponse env filterOptions
          end
      | None => fallbackResponse env filterOptions
      end
  | _, _ =>
      ret (NextResponse_json
             (ErrorBody "Query parameters 'lat' and 'lng' are required.")
             (Some 400))
  end.

End Route.

(** ** Notions the properties are stated with *)

(** The interval [(start, end)] of a schedule, as the evaluator sees it, holds
    the minute [current]. *)
Definition holds (interval : string * string) (current : number) : bool :=
  intervalContains (normalize (toMinutes (fst interval)))
                   (normalize (toMinutes (snd interval))) current.

(** The endpoint value the evaluator uses for a time string. *)
Definition endpointMinutes (time : string) : number :=
  normalize (toMinutes time).

(** The value of [endpointMinutes time] is [(h * 60 + m) mod 1440] and lies
    in [[0, 1440)], where [h] and [m] are the parsed components. *)
Definition wrapsModulo (time : string) : Prop :=
  forall h m : Z,
    parseInt (hourStr time) = Int h ->
    parseInt (minuteStr time ?? "0") = Int m ->
    endpointMinutes time = Int ((h * 60 + m) mod 1440) /\
    num_le (Int 0) (endpointMinutes time) = true /\
    num_lt (endpointMinutes time) MINUTES_IN_DAY = true.

(** The interval never holds any minute. *)
Definition neverMatches (interval : string * string) : Prop :=
  forall current : number, holds interval current = false.

(** An endpoint string without a leading integer, so that its minutes are
    NaN. *)
Definition nonNumeric (time : string) : Prop := toMinutes time = NaN.


(** The checks of the [filter] callback that read neither the clock nor the
    distance. *)
Definition staticChecks (c : Filters.t) (record : LocationRecord) : bool :=
  negb (categoryMismatch (Filters.category c) record)
  && negb (flagMismatch (Filters.accessible c) (Loc.accessible record))
  && negb (flagMismatch (Filters.pets c) (Loc.pets_allowed record))
  && negb (genderMismatch (Filters.gender c) record).

(** The events a computation adds to the log of the world it starts in. *)
Definition emitted {A : Type} (m : IO A) (w : World) : list Event :=
  drop (length (log w)) (log (snd (m w))).

(** A query-string coordinate that is missing or does not parse as a
    floating-point number. *)
Definition unusable (value : option string) : Prop :=
  value = None \/ exists s, value = Some s /\ parseFloat s = NaN.

(** The answer to a request without usable coordinates. *)
Definition missingCoordinates : Response :=
  mkResponse 400
    (ErrorBody "Query parameters 'lat' and 'lng' are required.").

(** The store gives the handler nothing to answer from: no client is
    configured, the call throws, the reply carries an error, or the reply
    carries neither rows nor an error. *)
Inductive storeFails (env : Env) (args : Rpc.t) : Prop :=
| NoClient : getSupabaseClient env = None -> storeFails env args
| CallThrew (supabase : Rpc.t -> RpcOutcome) :
    getSupabaseClient env = Some supabase ->
    supabase args = RpcThrew -> storeFails env args
| ErrorPayload (supabase : Rpc.t -> RpcOutcome) data error :
    getSupabaseClient env = Some supabase ->
    supabase args = RpcResolved data (Some error) -> storeFails env args
| NoData (supabase : Rpc.t -> RpcOutcome) :
    getSupabaseClient env = Some supabase ->
    supabase args = RpcResolved None None -> storeFails env args.

(** The store answers with an empty list of rows and no error. *)
Definition storeRepliesEmpty (env : Env) (args : Rpc.t) : Prop :=
  exists supabase,
    getSupabaseClient env = Some supabase /\
    supabase args = RpcResolved (Some []) None.

(** The response to the request is an OK result set drawn from the bundled
    dataset: the result of filtering its records, each with its distance
    unset. *)
Definition answeredFromFallback (P : Platform)
  (mockLocations : list LocationRecord) (env : Env)
  (searchParams : list (string * string)) (w : World) : Prop :=
  In FallbackUsed (emitted (GET P mockLocations env searchParams) w) /\
  exists lat lng,
    parseNumber (searchParams_get searchParams "lat") = Some lat /\
    parseNumber (searchParams_get searchParams "lng") = Some lng /\
    fst (GET P mockLocations env searchParams w) =
    mkResponse 200
      (ResultsBody
         (fst (applyFilters P env
                 (map (fun record => Loc.with_meters record None)
                    mockLocations)
                 (filterOptions searchParams lat lng) w))).

(** Ascending by distance: of two entries that both carry a distance the
    earlier one carries the smaller. *)
Definition ascendingByDistance (out : list LocationRecord) : Prop :=
  forall (i j : nat) a b da db,
    (i < j)%nat -> out !! i = Some a -> out !! j = Some b ->
    Loc.meters a = Some da -> Loc.meters b = Some db ->
    num_le da db = true.

(** Every entry without a distance comes after every entry with one. *)
Definition absentLast (out : list LocationRecord) : Prop :=
  forall (i j : nat) a b,
    out !! i = Some a -> out !! j = Some b ->
    Loc.meters a = None -> Loc.meters b <> None -> (j < i)%nat.

(** Ascending by effective distance, an absent distance counting as
    positive infinity. *)
Definition sortedByDistance (out : list LocationRecord) : Prop :=
  StronglySorted
    (fun a b => num_le (distanceOf a) (distanceOf b) = true) out.

(** Every entry without a distance comes after every entry with a finite
    one. *)
Definition absentAfterFinite (out : list LocationRecord) : Prop :=
  forall (i j : nat) a b,
    out !! i = Some a -> out !! j = Some b ->
    Loc.meters a = None ->
    (exists d, Loc.meters b = Some d /\ isFinite d = true) -> (j < i)%nat.

(** No candidate's distance is NaN once the distances are filled in. *)
Definition distancesComparable (P : Platform) (c : Filters.t)
  (records : list LocationRecord) : Prop :=
  Forall (fun r => distanceOf (fillDistance P c r) <> NaN) records.

(** The result of [applyFilters] is determined by the records and the
    criteria alone. *)
Definition pureOfArguments (P : Platform) : Prop :=
  forall env env' w w' records c,
    fst (applyFilters P env records c w) =
    fst (applyFilters P env' records c w').

(** The resolver yields both coordinates or none. *)
Definition bothOrNeither (pair : option number * option number) : Prop :=
  (exists latitude longitude, pair = (Some latitude, Some longitude)) \/
  pair = (None, None).

(** Neither the [latitude]/[longitude] fields nor the [lat]/[lng] fields of
    the row are a numeric pair. *)
Definition noNumericFields (row : NearbyLocationRow) : Prop :=
  (Row.latitude row = None \/ Row.longitude row = None) /\
  (Row.lat row = None \/ Row.lng row = None).

(** Of two elements exactly one is absent. *)
Definition oneMissing (x y : option number) : Prop :=
  (x = None /\ y <> None) \/ (x <> None /\ y = None).

(** The geometry of the row, an object or a text that parses, carries a
    [coordinates] array whose first two elements are [x] and [y]. *)
Definition geometryStartsWith (P : Platform) (row : NearbyLocationRow)
  (x y : option number) : Prop :=
  (exists rest,
      Row.geom row = GeomObject (Some (ArrayOf (x :: y :: rest)))) \/
  (exists text rest,
      Row.geom row = GeomString text /\ text <> EmptyString /\
      JSON_parse P text = Some (JsonWith (Some (ArrayOf (x :: y :: rest))))).

(** ** A platform and data to run the model on

    Low-order series stand for the trigonometric functions and a decoder of
    the compact point text for [JSON.parse].  No property depends on these
    choices: every theorem holds for every platform. *)

Definition onFinite (f : Q -> Q) (a : number) : number :=
  match a with Fin q => Fin (Qred (f q)) | _ => NaN end.

Definition seriesSin (x : Q) : Q :=
  (x - x * x * x / 6 + x * x * x * x * x / 120)%Q.

Definition seriesCos (x : Q) : Q :=
  (1 - x * x / 2 + x * x * x * x / 24)%Q.

Definition seriesAtan (t : Q) : Q :=
  (t - t * t * t / 3 + t * t * t * t * t / 5)%Q.

Fixpoint newtonSqrt (steps : nat) (q guess : Q) : Q :=
  match steps with
  | O => guess
  | S k => newtonSqrt k q (Qred ((guess + q / guess) / 2))
  end.

Definition sampleSqrt (a : number) : number :=
  match a with
  | Fin q =>
      match Qsign q with
      | Lt => NaN
      | Eq => Fin 0
      | Gt => Fin (newtonSqrt 4 q (Qred ((q + 1) / 2)))
      end
  | PosInf => PosInf
  | _ => NaN
  end.

Definition sampleAtan2 (y x : number) : number :=
  match y, x with
  | Fin p, Fin q =>
      match Qsign q with
      | Gt => Fin (Qred (seriesAtan (p / q)))
      | _ => Fin (Qred (355 # 226))
      end
  | _, _ => NaN
  end.

(** The code unit of the double quote. *)
Definition quote : string := String "034"%char EmptyString.

Fixpoint dropPrefix (p s : string) : option string :=
  match p, s with
  | EmptyString, _ => Some s
  | String a p', String b s' =>
      if Ascii.eqb a b then dropPrefix p' s' else None
  | _, _ => None
  end.

(** An element of a decoded array: [null], or a number. *)
Definition decodeElement (item : string) : option (option number) :=
  if String.eqb item "null" then Some None
  else
    let parsed := parseFloat item in
    if isNaN parsed then None else Some (Some parsed).

Fixpoint decodeElements (items : list string)
  : option (list (option number)) :=
  match items with
  | [] => Some []
  | item :: rest =>
      match decodeElement item, decodeElements rest with
      | Some element, Some elements => Some (element :: elements)
      | _, _ => None
      end
  end.

(** Decodes [{"coordinates":[x,y,...]}] and [null]; any other text is
    reported as a syntax error. *)
Definition decodePoint (text : string) : option JsonValue :=
  let opening := ("{" ++ quote ++ "coordinates" ++ quote ++ ":[")%string in
  match dropPrefix opening text with
  | Some rest =>
      match split "]" rest with
      | [items; "}"] =>
          match decodeElements (split "," items) with
          | Some elements => Some (JsonWith (Some (ArrayOf elements)))
          | None => None
          end
      | _ => None
      end
  | None => if String.eqb text "null" then Some JsonNull else None
  end.

Definition samplePlatform : Platform :=
  mkPlatform (Fin (355 # 113)) (onFinite seriesSin) (onFinite seriesCos)
    sampleSqrt sampleAtan2 decodePoint.

Definition sampleRecord (id : string) (category : string)
  (meters : option number) (hours : option HoursSchedule)
  (latitude longitude : option number) : LocationRecord :=
  Loc.mk id id category None None None None meters None None hours None None
    None None None None None latitude longitude.

Definition sampleRow (latitude longitude lat lng : option number)
  (geom : Geom) : NearbyLocationRow :=
  Row.mk "row" "row" "shelter" None None None None None None None None None
    None None None None None None latitude longitude lat lng geom.

Definition officeHours : HoursSchedule :=
  {[ "mon" := [("09:00", "17:00")] ]}.

Definition sampleMock : list LocationRecord :=
  [ sampleRecord "mock-shelter" "shelter" (Some (Int 1)) None
      (Some (Fin (1397 # 32))) (Some (Fin (- 635 # 8)));
    sampleRecord "mock-food" "food_bank" None (Some officeHours) None None ].

Definition noFilters (radiusKm : number) : Filters.t :=
  Filters.mk None false None None None radiusKm (Int 0) (Int 0).

Definition openFilter : Filters.t :=
  Filters.mk None true None None None (Int 5) (Int 0) (Int 0).

Definition fixedClock (d : Date) : Env := mkEnv (fun _ => d) None.

Definition storeEnv (reply : RpcOutcome) : Env :=
  mkEnv (fun _ => mkDate 1 10 0) (Some (fun _ => reply)).

Definition firstWorld : World := mkWorld 0 [].

Definition torontoQuery : list (string * string) :=
  [("lat", "43.65625"); ("lng", "-79.375"); ("radius_km", "5")].

(** The order C3 claims for a result. *)
Definition claimedOrder (out : list LocationRecord) : Prop :=
  ascendingByDistance out /\ absentLast out.

Definition withDistance (id : string) (meters : option number)
  : LocationRecord :=
  sampleRecord id "shelter" meters None None None.

(** An entry without a distance, then one whose distance is infinite. *)
Definition unknownThenInfinite : list LocationRecord :=
  [withDistance "unknown" None; withDistance "infinite" (Some PosInf)].

(** Distances 2, NaN and 1. *)
Definition aroundNaN : list LocationRecord :=
  [withDistance "two" (Some (Int 2)); withDistance "nan" (Some NaN);
   withDistance "one" (Some (Int 1))].

(** One record, open on Mondays from 09:00 to 17:00, 100 m away. *)
Definition officeRecord : LocationRecord :=
  sampleRecord "office" "shelter" (Some (Int 100)) (Some officeHours) None
    None.

Definition pointText : string :=
  ("{" ++ quote ++ "coordinates" ++ quote ++ ":[-79.375,43.65625]}")%string.

Definition torontoLat : number := Fin (1397 # 32).
Definition torontoLng : number := Fin (- 635 # 8).

From Stdlib Require DecimalString.

(** ** Notions of the further properties *)

(** A string without a colon. *)
Fixpoint noColon (s : string) : bool :=
  match s with
  | EmptyString => true
  | String c r => negb (Ascii.eqb c ":") && noColon r
  end.

(** The facts about the trigonometric library that make the distance from
    a point to itself zero. *)
Record ExactAtZero (P : Platform) : Prop := {
  PI_finite : isFinite (Math_PI P) = true;
  sin_zero : forall x, num_eq x (Int 0) -> num_eq (Math_sin P x) (Int 0);
  cos_finite : forall q, isFinite (Math_cos P (Fin q)) = true;
  sqrt_zero : forall x, num_eq x (Int 0) -> num_eq (Math_sqrt P x) (Int 0);
  sqrt_one : forall x, num_eq x (Int 1) -> num_eq (Math_sqrt P x) (Int 1);
  atan2_zero :
    forall y x,
      num_eq y (Int 0) -> num_eq x (Int 1) ->
      num_eq (Math_atan2 P y x) (Int 0)
}.

(** A [coordinates] value the resolver cannot take a pair from: not an
    array, or an array of fewer than two elements. *)
Definition noPair (c : option CoordinatesValue) : Prop :=
  match c with
  | Some (ArrayOf (_ :: _ :: _)) => False
  | _ => True
  end.

(** A geometry the resolver gets no coordinates from. *)
Definition unusableGeometry (P : Platform) (g : Geom) : Prop :=
  match g with
  | GeomFalsy | GeomOther => True
  | GeomObject c => noPair c
  | GeomString EmptyString => True
  | GeomString text =>
      match JSON_parse P text with
      | None | Some JsonNull => True
      | Some (JsonWith c) => noPair c
      end
  end.

(** The checks of the [filter] callback, on one record of a result. *)
Definition passesFilters (c : Filters.t) (r : LocationRecord) : Prop :=
  (forall cat, Filters.category c = Some cat -> cat <> EmptyString ->
               Loc.category r = cat) /\
  (forall b, Filters.accessible c = Some b -> Loc.accessible r = Some b) /\
  (forall b, Filters.pets c = Some b -> Loc.pets_allowed r = Some b) /\
  (forall g, Filters.gender c = Some g -> g <> EmptyString ->
             Loc.gender_restriction r = None \/
             Loc.gender_restriction r = Some EmptyString \/
             Loc.gender_restriction r = Some g) /\
  radiusExceeded (Filters.radiusKm c) r = false.

(** The records the [filter] step of [applyFilters] keeps. *)
Definition keptRecords (P : Platform) (env : Env)
  (records : list LocationRecord) (c : Filters.t) (w : World)
  : list LocationRecord :=
  fst (Array_filter (keepRecord env c) (map (fillDistance P c) records) w).

Definition isRpcCalled (e : Event) : bool :=
  match e with RpcCalled _ => true | _ => false end.

Definition isWarned (e : Event) : bool :=
  match e with Warned _ => true | _ => false end.

(** The events [GET] leaves behind for a request with valid coordinates,
    by what the store does. *)
Definition expectedTrace (env : Env) (args : Rpc.t) : list Event :=
  match getSupabaseClient env with
  | None => [FallbackUsed]
  | Some supabase =>
      RpcCalled args ::
      match supabase args with
      | RpcThrew =>
          [Warned "Supabase RPC nearby_locations threw:"; FallbackUsed]
      | RpcResolved _ (Some _) =>
          [Warned "Supabase RPC nearby_locations error:"; FallbackUsed]
      | RpcResolved (Some _) None => []
      | RpcResolved None None => [FallbackUsed]
      end
  end.

(** The store call throws or replies with an error. *)
Definition storeErrs (env : Env) (args : Rpc.t) : Prop :=
  exists supabase,
    getSupabaseClient env = Some supabase /\
    (supabase args = RpcThrew \/
     exists data error, supabase args = RpcResolved data (Some error)).

(** ** src/app/page.tsx *)

Module Coordinates.
Record t : Type := mk {
  lat : number;
  lng : number
}.
End Coordinates.

Module FilterState.
Record t : Type := mk {
  category : string;
  radiusKm : number;
  openNow : bool;
  accessible : option bool;
  pets : option bool;
  gender : string
}.
End FilterState.

Fixpoint removeAll (name : string) (params : list (string * string))
  : list (string * string) :=
  match params with
  | [] => []
  | (k, v) :: rest =>
      if String.eqb k name then removeAll name rest
      else (k, v) :: removeAll name rest
  end.

(** [params.set(name, value)]: the first entry of that name takes the value
    and the others are removed; without one, the entry is appended. *)
Fixpoint URLSearchParams_set (params : list (string * string))
  (name value : string) : list (string * string) :=
  match params with
  | [] => [(name, value)]
  | (k, v) :: rest =>
      if String.eqb k name then (k, value) :: removeAll name rest
      else (k, v) :: URLSearchParams_set rest name value
  end.

(** [String(b)] *)
Definition String_of_bool (b : bool) : string :=
  if b then "true" else "false".

(** [response.ok] *)
Definition Response_ok (response : Response) : bool :=
  (200 <=? status response) && (status response <=? 299).

(** [payload?.error] of the parsed body. *)
Definition payloadError (b : Body) : option string :=
  match b with
  | ErrorBody error => Some error
  | ResultsBody _ => None
  end.

Section Page.
(** [Number.prototype.toString], of the platform. *)
Context (Number_toString : number -> string).

(** The entries of the query string; the handler reads them back from the
    text they are serialised to. *)
Definition createQueryString (coords : Coordinates.t)
  (filters : FilterState.t) : list (string * string) :=
  let params :=
    [("lat", Number_toString (Coordinates.lat coords));
     ("lng", Number_toString (Coordinates.lng coords));
     ("radius_km", Number_toString (FilterState.radiusKm filters))] in
  let params :=
    if negb (String.eqb (FilterState.category filters) "all")
    then URLSearchParams_set params "category" (FilterState.category filters)
    else params in
  let params :=
    if FilterState.openNow filters
    then URLSearchParams_set params "open_now" "true"
    else params in
  let params :=
    match FilterState.accessible filters with
    | Some accessible =>
        URLSearchParams_set params "accessible" (String_of_bool accessible)
    | None => params
    end in
  let params :=
    match FilterState.pets filters with
    | Some pets => URLSearchParams_set params "pets" (String_of_bool pets)
    | None => params
    end in
  let params :=
    if negb (String.eqb (FilterState.gender filters) "all")
    then URLSearchParams_set params "gender" (FilterState.gender filters)
    else params in
  params.

(** [fetchLocations], over what answers the request: the error thrown, or
    the body returned. *)
Definition fetchLocations
  (respond : list (string * string) -> IO Response)
  (coords : Coordinates.t) (filters : FilterState.t)
  : IO (string + Body) :=
  let params := createQueryString coords filters in
  let! response := respond params in
  if negb (Response_ok response) then
    let payload := body response in
    ret (inl (payloadError payload ?? "Failed to load nearby services."))
  else ret (inr (body response)).

End Page.

(** [results.filter((location) => isOpenNow(location.hours)).length] *)
Definition openCount (env : Env) (results : list LocationRecord) : IO nat :=
  let! open :=
    Array_filter (fun location => isOpenNowDefault env (Loc.hours location))
      results in
  ret (length open).

(** The effect that keeps the selection on a listed record: the next value
    of [selectedId]. *)
Definition reselect (results : list LocationRecord)
  (selectedId : option string) : option string :=
  match results with
  | [] => None
  | first :: _ =>
      if negb (truthy selectedId)
         || negb (existsb
                    (fun location =>
                       match selectedId with
                       | Some id => String.eqb (Loc.id location) id
                       | None => false
                       end) results)
      then Some (Loc.id first)
      else selectedId
  end.

(** The filters a request made with [createQueryString] asks for. *)
Definition requestedFilters (filters : FilterState.t) (lat lng : number)
  : Filters.t :=
  Filters.mk
    (if String.eqb (FilterState.category filters) "all" then None
     else Some (FilterState.category filters))
    (FilterState.openNow filters) (FilterState.accessible filters)
    (FilterState.pets filters)
    (if String.eqb (FilterState.gender filters) "all" then None
     else Some (FilterState.gender filters))
    (FilterState.radiusKm filters) lat lng.

(** A printer to run the page's functions with: whole numbers in decimal,
    any other finite value as the whole number below it. *)
Definition sampleToString (a : number) : string :=
  match a with
  | NaN => "NaN"
  | PosInf => "Infinity"
  | NegInf => "-Infinity"
  | Fin q => DecimalString.NilZero.string_of_int (Z.to_int (Qfloor q))
  end.

Definition sampleCoords : Coordinates.t := Coordinates.mk (Int 44) (Int (-79)).

Definition sampleFilters : FilterState.t :=
  FilterState.mk "shelter" (Int 10) true (Some true) None "all".

(** ** src/components/map-view.tsx *)

Definition markerClassNames (isSelected : bool) : string :=
  String.concat " "
    ["flex"; "size-4"; "items-center"; "justify-center"; "rounded-full";
     "shadow-lg"; "transition"; "hover:scale-110";
     if isSelected then "bg-brand-600 scale-110" else "bg-brand-500"].

(** What a marker is made with: its position, in (longitude, latitude)
    order, the label of its element and the class of that element. *)
Record MarkerEntry : Type := mkMarker {
  lngLat : number * number;
  label : string;
  className : string
}.

(** [location.id === selectedId] *)
Definition isSelectedId (id : string) (selectedId : option string) : bool :=
  match selectedId with
  | Some selected => String.eqb id selected
  | None => false
  end.

(** One step of the loop that places the markers. *)
Definition placeMarker (selectedId : option string)
  (markers : gmap string MarkerEntry) (location : LocationRecord)
  : gmap string MarkerEntry :=
  match Loc.latitude location, Loc.longitude location with
  | Some latitude, Some longitude =>
      <[Loc.id location :=
          mkMarker (longitude, latitude) (Loc.name location)
            (markerClassNames (isSelectedId (Loc.id location) selectedId))]>
        markers
  | _, _ => markers
  end.

(** The content of [markersRef] after the marker effect has run on
    [locations] with the map present: the registry is cleared, then filled
    in the order of the list, a later record replacing the entry of an
    earlier one with the same id. *)
Definition placeMarkers (locations : list LocationRecord)
  (selectedId : option string) : gmap string MarkerEntry :=
  foldl (placeMarker selectedId) ∅ locations.

(** A record with both coordinates. *)
Definition located (r : LocationRecord) : bool :=
  match Loc.latitude r, Loc.longitude r with
  | Some _, Some _ => true
  | _, _ => false
  end.

(** Sixty records, the [n]-th of them [60 - n] m away. *)
Definition sixtyRecords : list LocationRecord :=
  map (fun n => withDistance "near" (Some (Int (Z.of_nat (60 - n)))))
    (seq 0 60).
(** * Properties *)

(** ** Rounding *)

Lemma pow2_pos (k : Z) : (0 < 2 ^ k)%Q.
Proof. now apply Qpower_0_lt. Qed.

Lemma pow2_add (a b : Z) : (2 ^ (a + b) == 2 ^ a * 2 ^ b)%Q.
Proof. now apply Qpower_plus. Qed.

Lemma pow2_succ (a : Z) : (2 ^ (a + 1) == 2 * 2 ^ a)%Q.
Proof. rewrite pow2_add. change (2 ^ 1)%Q with 2%Q. ring. Qed.

Lemma pow2_Z (n : Z) : 0 <= n -> (inject_Z (2 ^ n) == 2 ^ n)%Q.
Proof. intros H. now rewrite Zpower_Qpower. Qed.

Lemma pow2_lt_inv (a b : Z) : (2 ^ a < 2 ^ b)%Q -> a < b.
Proof. intros H. now apply (Qpower_lt_compat_l_inv 2). Qed.

Lemma pow2_le (a b : Z) : a <= b -> (2 ^ a <= 2 ^ b)%Q.
Proof. intros H. now apply Qpower_le_compat_l. Qed.

(** [ilog2 x] is the exponent of the binade of [x]. *)
Lemma ilog2_spec (x : Q) :
  (0 < x)%Q -> (2 ^ ilog2 x <= x /\ x < 2 ^ (ilog2 x + 1))%Q.
Proof.
  intros Hx. unfold ilog2.
  destruct x as [n d]. cbn [Qnum Qden].
  assert (Hn : 0 < n) by (unfold Qlt in Hx; simpl in Hx; lia).
  set (a := Z.log2 n). set (b := Z.log2 (Z.pos d)).
  destruct (Z.log2_spec n Hn) as [Ha1 Ha2]. fold a in Ha1, Ha2.
  destruct (Z.log2_spec (Z.pos d) eq_refl) as [Hb1 Hb2]. fold b in Hb1, Hb2.
  assert (Ha0 : 0 <= a) by apply Z.log2_nonneg.
  assert (Hb0 : 0 <= b) by apply Z.log2_nonneg.
  rewrite Zle_Qle, pow2_Z in Ha1, Hb1 by lia.
  rewrite Zlt_Qlt, pow2_Z in Ha2, Hb2 by lia.
  replace (Z.succ a) with (a + 1) in Ha2 by lia.
  replace (Z.succ b) with (b + 1) in Hb2 by lia.
  rewrite pow2_succ in Ha2, Hb2.
  pose proof (pow2_pos a) as Hpa. pose proof (pow2_pos b) as Hpb.
  pose proof (pow2_pos (a - b)) as Hpk.
  assert (Hk : (2 ^ a == 2 ^ (a - b) * 2 ^ b)%Q).
  { rewrite <- pow2_add. now replace (a - b + b) with a by lia. }
  assert (Hxq : (n # d == inject_Z n / inject_Z (Z.pos d))%Q)
    by apply Qmake_Qdiv.
  set (N := inject_Z n) in *. set (D := inject_Z (Z.pos d)) in *.
  set (PA := (2 ^ a)%Q) in *. set (PB := (2 ^ b)%Q) in *.
  set (PK := (2 ^ (a - b))%Q) in *.
  assert (HD : (0 < D)%Q) by lra.
  assert (Hx1 : ((n # d) * D == N)%Q).
  { rewrite Hxq. field. lra. }
  assert (Hup : (n # d < 2 * PK)%Q).
  { apply Qnot_le_lt. intros Hc.
    assert ((2 * PK) * D <= (n # d) * D)%Q
      by (apply Qmult_le_compat_r; lra).
    assert (PK * PB <= PK * D)%Q by (apply Qmult_le_l; lra).
    lra. }
  assert (Hlo : (PK < 2 * (n # d))%Q).
  { apply Qnot_le_lt. intros Hc.
    assert ((2 * (n # d)) * D <= PK * D)%Q
      by (apply Qmult_le_compat_r; lra).
    assert (PK * D < PK * (2 * PB))%Q by (apply Qmult_lt_l; lra).
    lra. }
  destruct (Qle_bool PK (n # d)) eqn:Htest.
  - apply Qle_bool_iff in Htest. split; [exact Htest|].
    rewrite pow2_succ. exact Hup.
  - assert (Hlt : (n # d < PK)%Q).
    { apply Qnot_le_lt. intros Hc. apply Qle_bool_iff in Hc. congruence. }
    replace (a - b - 1 + 1) with (a - b) by lia. split; [|exact Hlt].
    assert (Hh : (2 ^ (a - b) == 2 * 2 ^ (a - b - 1))%Q).
    { rewrite <- pow2_succ. now replace (a - b - 1 + 1) with (a - b) by lia. }
    fold PK in Hh. lra.
Qed.

Lemma ilog2_unique (x : Q) (k : Z) :
  (2 ^ k <= x)%Q -> (x < 2 ^ (k + 1))%Q -> ilog2 x = k.
Proof.
  intros H1 H2.
  assert (Hx : (0 < x)%Q) by (pose proof (pow2_pos k); lra).
  destruct (ilog2_spec x Hx) as [H3 H4].
  assert (k < ilog2 x + 1) by (apply pow2_lt_inv; lra).
  assert (ilog2 x < k + 1) by (apply pow2_lt_inv; lra).
  lia.
Qed.

Lemma ilog2_comp (x y : Q) : (x == y)%Q -> (0 < x)%Q -> ilog2 x = ilog2 y.
Proof.
  intros Hxy Hx. symmetry.
  destruct (ilog2_spec x Hx) as [H1 H2].
  apply ilog2_unique; now rewrite <- Hxy.
Qed.

Lemma roundHalfEven_comp (x y : Q) :
  (x == y)%Q -> roundHalfEven x = roundHalfEven y.
Proof.
  intros H. unfold roundHalfEven.
  rewrite (Qfloor_comp x y H).
  assert (Hc : (x - inject_Z (Qfloor y) ?= 1 # 2)%Q
               = (y - inject_Z (Qfloor y) ?= 1 # 2)%Q)
    by now rewrite H.
  now rewrite Hc.
Qed.

Lemma roundHalfEven_Z (z : Z) : roundHalfEven (inject_Z z) = z.
Proof.
  unfold roundHalfEven. rewrite Qfloor_Z.
  assert (H : (inject_Z z - inject_Z z ?= 1 # 2)%Q = Lt).
  { assert (H0 : (inject_Z z - inject_Z z == 0)%Q) by ring.
    now rewrite H0. }
  now rewrite H.
Qed.

Lemma roundHalfEven_ge_floor (x : Q) : Qfloor x <= roundHalfEven x.
Proof.
  unfold roundHalfEven.
  destruct (x - inject_Z (Qfloor x) ?= 1 # 2)%Q; [|lia|lia].
  destruct (Z.even (Qfloor x)); lia.
Qed.

Lemma roundAt_comp (e : Z) (x y : Q) :
  (x == y)%Q -> roundAt e x = roundAt e y.
Proof.
  intros H. unfold roundAt.
  rewrite (roundHalfEven_comp (x / 2 ^ e) (y / 2 ^ e)); [reflexivity|].
  now rewrite H.
Qed.

Lemma Qsign_comp (x y : Q) : (x == y)%Q -> Qsign x = Qsign y.
Proof. intros H. unfold Qsign. now rewrite H. Qed.

Lemma round53_comp (x y : Q) : (x == y)%Q -> round53 x = round53 y.
Proof.
  intros H. unfold round53. rewrite <- (Qsign_comp x y H).
  destruct (Qsign x) eqn:Hs; [reflexivity| |].
  - assert (Hn : (0 < - x)%Q).
    { unfold Qsign in Hs. apply Qlt_alt in Hs. lra. }
    assert (Hxy : (- x == - y)%Q) by now rewrite H.
    rewrite (ilog2_comp (- x) (- y) Hxy Hn).
    now rewrite (roundAt_comp _ (- x) (- y) Hxy).
  - assert (Hp : (0 < x)%Q).
    { unfold Qsign in Hs. apply Qgt_alt in Hs. lra. }
    rewrite (ilog2_comp x y H Hp).
    now rewrite (roundAt_comp _ x y H).
Qed.

(** A positive value is rounded to a positive value. *)
Lemma roundAt_pos (x : Q) : (0 < x)%Q -> (0 < roundAt (ilog2 x - 52) x)%Q.
Proof.
  intros Hx. unfold roundAt. rewrite Qred_correct.
  destruct (ilog2_spec x Hx) as [Hlo _].
  set (e := ilog2 x - 52).
  pose proof (pow2_pos e) as He.
  assert (Hsplit : (2 ^ ilog2 x == 2 ^ 52 * 2 ^ e)%Q).
  { rewrite <- pow2_add. unfold e.
    now replace (52 + (ilog2 x - 52)) with (ilog2 x) by lia. }
  assert (Hscaled : (2 ^ 52 <= x / 2 ^ e)%Q).
  { apply Qle_shift_div_l; [exact He|]. now rewrite <- Hsplit. }
  assert (Hfloor : 2 ^ 52 <= Qfloor (x / 2 ^ e)).
  { rewrite <- (Qfloor_Z (2 ^ 52)). apply Qfloor_resp_le.
    now rewrite pow2_Z by lia. }
  pose proof (roundHalfEven_ge_floor (x / 2 ^ e)) as Hr.
  apply Qmult_lt_0_compat; [|exact He].
  rewrite <- (Zlt_Qlt 0). lia.
Qed.

(** Rounding keeps the sign. *)
Lemma round53_sign (x : Q) : Qsign (round53 x) = Qsign x.
Proof.
  unfold round53. destruct (Qsign x) eqn:Hs; [reflexivity| |]; unfold Qsign.
  - assert (Hn : (0 < - x)%Q).
    { unfold Qsign in Hs. apply Qlt_alt in Hs. lra. }
    pose proof (roundAt_pos (- x) Hn). apply (proj1 (Qlt_alt _ _)). lra.
  - assert (Hp : (0 < x)%Q).
    { unfold Qsign in Hs. apply Qgt_alt in Hs. lra. }
    pose proof (roundAt_pos x Hp). apply (proj1 (Qgt_alt _ _)). lra.
Qed.

(** A value with a significand below [2 ^ 53] is not changed. *)
Lemma roundAt_representable (x : Q) (m e : Z) :
  0 < m < 2 ^ 53 -> (x == inject_Z m * 2 ^ e)%Q ->
  roundAt (ilog2 x - 52) x = Qred x.
Proof.
  intros Hm Hx.
  pose proof (pow2_pos e) as He.
  assert (Hm1 : (0 < inject_Z m)%Q) by (rewrite <- (Zlt_Qlt 0); lia).
  assert (Hm2 : (inject_Z m < 2 ^ 53)%Q).
  { rewrite <- pow2_Z by lia. rewrite <- Zlt_Qlt. lia. }
  assert (Hpos : (0 < x)%Q).
  { rewrite Hx. now apply Qmult_lt_0_compat. }
  destruct (ilog2_spec x Hpos) as [Hlo _].
  set (L := ilog2 x) in *.
  assert (Hle : L - 52 <= e).
  { assert (L < 53 + e); [|lia].
    apply pow2_lt_inv. rewrite pow2_add.
    assert (inject_Z m * 2 ^ e < 2 ^ 53 * 2 ^ e)%Q
      by (apply Qmult_lt_compat_r; assumption).
    lra. }
  set (s := e - (L - 52)).
  assert (Hs : 0 <= s) by (unfold s; lia).
  pose proof (pow2_pos (L - 52)) as HL.
  assert (Hpow : (2 ^ e == inject_Z (2 ^ s) * 2 ^ (L - 52))%Q).
  { rewrite pow2_Z, <- pow2_add by exact Hs.
    now replace (s + (L - 52)) with e by (unfold s; lia). }
  assert (Hscaled : (x / 2 ^ (L - 52) == inject_Z (m * 2 ^ s))%Q).
  { rewrite inject_Z_mult, Hx, Hpow. field. lra. }
  unfold roundAt.
  rewrite (roundHalfEven_comp _ _ Hscaled), roundHalfEven_Z.
  apply Qred_complete.
  rewrite inject_Z_mult, Hx, Hpow. ring.
Qed.

Lemma round53_representable (x : Q) (m e : Z) :
  Z.abs m < 2 ^ 53 -> (x == inject_Z m * 2 ^ e)%Q -> round53 x = Qred x.
Proof.
  intros Hm Hx. unfold round53.
  pose proof (pow2_pos e) as He.
  destruct (Qsign x) eqn:Hs; unfold Qsign in Hs.
  - apply Qeq_alt in Hs. now rewrite (Qred_complete x 0 Hs).
  - apply Qlt_alt in Hs.
    assert (Hneg : m < 0).
    { destruct (Z.ltb_spec m 0) as [|Hge]; [assumption|].
      rewrite Zle_Qle in Hge. change (inject_Z 0) with 0%Q in Hge.
      assert (0 <= inject_Z m * 2 ^ e)%Q by (apply Qmult_le_0_compat; lra).
      lra. }
    rewrite (roundAt_representable (- x) (- m) e).
    + rewrite Qred_opp. destruct (Qred x) as [n d]. unfold Qopp. simpl.
      now rewrite Z.opp_involutive.
    + lia.
    + rewrite Hx, inject_Z_opp. ring.
  - apply Qgt_alt in Hs.
    assert (Hposm : 0 < m).
    { destruct (Z.ltb_spec 0 m) as [|Hle]; [assumption|].
      rewrite Zle_Qle in Hle. change (inject_Z 0) with 0%Q in Hle.
      assert (0 <= (- inject_Z m) * 2 ^ e)%Q
        by (apply Qmult_le_0_compat; lra).
      lra. }
    apply (roundAt_representable x m e); [lia | exact Hx].
Qed.

Lemma Qred_Z (z : Z) : Qred (inject_Z z) = inject_Z z.
Proof.
  unfold Qred, inject_Z.
  pose proof (Z.ggcd_gcd z 1) as Hg.
  pose proof (Z.ggcd_correct_divisors z 1) as Hd.
  destruct (Z.ggcd z 1) as [g [a b]]. simpl in *.
  rewrite Z.gcd_1_r in Hg. subst g. destruct Hd as [Ha Hb].
  rewrite Z.mul_1_l in Ha, Hb. now subst.
Qed.

(** Integers below [2 ^ 53] in magnitude are exact. *)
Lemma round53_Z (x : Q) (z : Z) :
  Z.abs z < 2 ^ 53 -> (x == inject_Z z)%Q -> round53 x = inject_Z z.
Proof.
  intros Hz Hx.
  rewrite (round53_representable x z 0 Hz).
  - rewrite (Qred_complete x (inject_Z z) Hx). apply Qred_Z.
  - rewrite Hx. change (2 ^ 0)%Q with 1%Q. ring.
Qed.

Lemma round53_positive (x : Q) : (0 < round53 x)%Q <-> (0 < x)%Q.
Proof.
  pose proof (round53_sign x) as H. unfold Qsign in H.
  split; intros Hp.
  - apply Qgt_alt in Hp. rewrite H in Hp. now apply Qgt_alt in Hp.
  - apply Qgt_alt. rewrite H. now apply Qgt_alt.
Qed.

Lemma round53_zero (x : Q) : (x == 0)%Q -> round53 x = 0%Q.
Proof.
  intros H. unfold round53, Qsign.
  now rewrite (proj1 (Qeq_alt x 0) H).
Qed.

(** ** Integer-valued numbers *)

Ltac safe_arith :=
  unfold safeInteger in *; change (2 ^ 53) with 9007199254740992 in *; lia.

Lemma num_add_Int (a b : Z) :
  safeInteger (a + b) -> num_add (Int a) (Int b) = Int (a + b).
Proof.
  intros H. unfold Int, num_add. f_equal.
  apply round53_Z; [safe_arith | now rewrite inject_Z_plus].
Qed.

Lemma num_sub_Int (a b : Z) :
  safeInteger (a - b) -> num_sub (Int a) (Int b) = Int (a - b).
Proof.
  intros H. unfold Int, num_sub, num_add, num_neg. f_equal.
  apply round53_Z; [safe_arith|].
  unfold Z.sub. now rewrite inject_Z_plus, inject_Z_opp.
Qed.

Lemma num_mul_Int (a b : Z) :
  safeInteger (a * b) -> num_mul (Int a) (Int b) = Int (a * b).
Proof.
  intros H. unfold Int, num_mul. f_equal.
  apply round53_Z; [safe_arith | now rewrite inject_Z_mult].
Qed.

Lemma num_lt_Int (a b : Z) : num_lt (Int a) (Int b) = (a <? b).
Proof.
  unfold Int, inject_Z, num_lt, Qcompare; simpl.
  now rewrite !Z.mul_1_r.
Qed.

Lemma num_le_Int (a b : Z) : num_le (Int a) (Int b) = (a <=? b).
Proof.
  unfold Int, inject_Z, num_le, Qcompare; simpl.
  rewrite !Z.mul_1_r. unfold Z.leb. now destruct (a ?= b).
Qed.

Lemma Int_inj (a b : Z) : Int a = Int b -> a = b.
Proof. unfold Int, inject_Z. now inversion 1. Qed.

Ltac int_arith :=
  repeat first
    [ rewrite num_mul_Int by safe_arith
    | rewrite num_add_Int by safe_arith
    | rewrite num_sub_Int by safe_arith
    | rewrite num_lt_Int | rewrite num_le_Int ].

Lemma normalize_Int (v : Z) :
  safeInteger v ->
  normalize (Int v) =
  Int (if v <? 0 then v + 1440 else if 1440 <=? v then v - 1440 else v).
Proof.
  intros Hv. unfold normalize, num_ge, MINUTES_IN_DAY.
  change (24 * 60) with 1440. rewrite num_lt_Int, num_le_Int.
  destruct (Z.ltb_spec v 0); [now int_arith|].
  destruct (Z.leb_spec 1440 v); [now int_arith | reflexivity].
Qed.

Lemma toMinutes_Int (time : string) (h m : Z) :
  parseInt (hourStr time) = Int h ->
  parseInt (minuteStr time ?? "0") = Int m ->
  safeInteger (h * 60) -> safeInteger (h * 60 + m) ->
  toMinutes time = Int (h * 60 + m).
Proof. unfold toMinutes. intros -> -> H1 H2. now int_arith. Qed.

Lemma minutesNow_Int (d : Date) :
  valid_date d -> minutesNow d = Int (getHours d * 60 + getMinutes d).
Proof.
  intros (_ & Hh & Hm). unfold minutesNow. now int_arith.
Qed.

(** Values the platform gives, for comparison: 0.1 + 0.2, a third, the
    largest finite literal and the first that is read as infinite, the
    smallest positive value and a literal below half of it, and an integer
    beyond [2 ^ 53]. *)
Example rounding_scenarios :
  num_add (parseFloat "0.1") (parseFloat "0.2")
  = Fin (1351079888211149 # 4503599627370496) /\
  num_div (Int 1) (Int 3) = Fin (6004799503160661 # 18014398509481984) /\
  isFinite (parseFloat "1.7976931348623157e308") = true /\
  parseFloat "1.7976931348623159e308" = PosInf /\
  parseFloat "1e400" = PosInf /\
  parseFloat "-1e400" = NegInf /\
  num_gt (parseFloat "2.5e-324") (Int 0) = true /\
  parseFloat "2.4e-324" = Fin 0 /\
  parseInt "9007199254740993" = Int 9007199254740992 /\
  parseInt "99999999999999999999" = Int 100000000000000000000.
Proof. repeat split; vm_compute; reflexivity. Qed.

(** ** The open-hours evaluator *)

Lemma isOpenNow_some (S : HoursSchedule) (T : Date)
  (intervals : list (string * string)) :
  todaysHours S T = Some intervals ->
  isOpenNow (Some S) T = existsb (fun i => holds i (minutesNow T)) intervals.
Proof.
  unfold isOpenNow. intros ->.
  destruct intervals as [|i rest]; [reflexivity|].
  generalize (i :: rest). intros l.
  induction l as [|[start end_] l IH]; simpl; [reflexivity|].
  now rewrite IH.
Qed.

Lemma num_gt_not_le (a b : number) : num_gt a b = true -> num_le a b = false.
Proof.
  unfold num_gt, num_lt, num_le.
  destruct a as [| | |p], b as [| | |q]; try easy.
  destruct (Qcompare_spec q p), (Qcompare_spec p q);
    try easy; intros _; exfalso; lra.
Qed.

Lemma minutesNow_in_day (T : Date) :
  valid_date T ->
  num_le (Int 0) (minutesNow T) = true /\
  num_lt (minutesNow T) MINUTES_IN_DAY = true.
Proof.
  intros HT. rewrite (minutesNow_Int T HT). destruct HT as (_ & Hh & Hm).
  unfold MINUTES_IN_DAY. int_arith. split; [apply Z.leb_le | apply Z.ltb_lt]; lia.
Qed.

Lemma num_le_trans (a b c : number) :
  num_le a b = true -> num_le b c = true -> num_le a c = true.
Proof.
  unfold num_le.
  destruct a as [| | |p], b as [| | |q], c as [| | |r]; try easy.
  destruct (Qcompare_spec p q), (Qcompare_spec q r), (Qcompare_spec p r);
    try easy; intros _ _; exfalso; lra.
Qed.

(** On integer minutes the evaluator's test is membership in the interval,
    read around midnight when the start is the later endpoint. *)
Lemma intervalContains_Int (s e c : Z) :
  0 <= c < 1440 ->
  intervalContains (Int s) (Int e) (Int c) = true <->
  (s <= e /\ s <= c < e) \/ (e < s /\ (s <= c < 1440 \/ 0 <= c < e)).
Proof.
  intros Hc. unfold intervalContains, num_ge. int_arith.
  destruct (Z.leb_spec s e), (Z.leb_spec s c), (Z.ltb_spec c e); simpl;
    split; try easy; intros; lia.
Qed.

(** C2. [isOpenNow] is false for an absent schedule and, the day of the
    week being looked up by [getDay] in the table that starts on Sunday,
    for a schedule with no or an empty entry for that day; otherwise it is
    true exactly when one of that day's intervals holds the current
    minute, 60 times the hour plus the minutes, where an interval with
    start <= end holds the minutes of [[start, end)] and an interval with
    start > end those of [[start, 1440)] and of [[0, end)]. *)
Theorem isOpenNow_characterisation (T : Date) (HT : valid_date T) :
  let current := getHours T * 60 + getMinutes T in
  isOpenNow None T = false /\
  (exists day,
      ["sun"; "mon"; "tue"; "wed"; "thu"; "fri"; "sat"] !! getDay T
      = Some day /\
      forall S : HoursSchedule,
        (S !! day = None \/ S !! day = Some [] ->
         isOpenNow (Some S) T = false) /\
        (forall intervals,
            S !! day = Some intervals ->
            (isOpenNow (Some S) T = true <->
             exists start end_,
               In (start, end_) intervals /\
               intervalContains (normalize (toMinutes start))
                 (normalize (toMinutes end_)) (Int current) = true))) /\
  (forall start end_ : number,
      num_le start end_ = true ->
      (intervalContains start end_ (Int current) = true <->
       num_le start (Int current) = true /\
       num_lt (Int current) end_ = true)) /\
  (forall start end_ : number,
      num_gt start end_ = true ->
      (intervalContains start end_ (Int current) = true <->
       (num_le start (Int current) = true /\
        num_lt (Int current) (Int 1440) = true) \/
       (num_le (Int 0) (Int current) = true /\
        num_lt (Int current) end_ = true))) /\
  (forall s e : Z,
      intervalContains (Int s) (Int e) (Int current) = true <->
      (s <= e /\ s <= current < e) \/
      (e < s /\ (s <= current < 1440 \/ 0 <= current < e))) /\
  0 <= current < 1440.
Proof.
  intros current.
  pose proof (minutesNow_Int T HT) as Hnow. fold current in Hnow.
  assert (Hrange : 0 <= current < 1440).
  { destruct HT as (_ & Hh & Hm). unfold current. lia. }
  split; [reflexivity|]. split; [|split; [|split; [|split]]].
  - destruct HT as (Hday & _).
    destruct (["sun"; "mon"; "tue"; "wed"; "thu"; "fri"; "sat"] !! getDay T)
      as [day|] eqn:Hkey.
    2:{ apply lookup_ge_None in Hkey. simpl in Hkey. lia. }
    exists day. split; [reflexivity|]. intros S.
    assert (Htoday : todaysHours S T = S !! day).
    { unfold todaysHours, todayKey, dayKeys. now rewrite Hkey. }
    split.
    + intros [H|H]; unfold isOpenNow; now rewrite Htoday, H.
    + intros intervals H. rewrite <- Htoday in H.
      rewrite (isOpenNow_some S T intervals H), Hnow.
      rewrite existsb_exists. split.
      * intros [[start end_] [Hin Hc]]. now exists start, end_.
      * intros (start & end_ & Hin & Hc). now exists (start, end_).
  - intros start end_ Hle. unfold intervalContains, num_ge. rewrite Hle.
    now rewrite andb_true_iff.
  - intros start end_ Hgt. unfold intervalContains, num_ge.
    rewrite (num_gt_not_le _ _ Hgt), orb_true_iff.
    rewrite !num_le_Int, !num_lt_Int.
    destruct (Z.leb_spec 0 current), (Z.ltb_spec current 1440);
      try lia. tauto.
  - intros s e. now apply intervalContains_Int.
  - exact Hrange.
Qed.

Lemma isOpenNow_characterisation_witness :
  valid_date (mkDate 1 23 30) /\
  isOpenNow (Some {[ "mon" := [("22:00", "02:00")] ]}) (mkDate 1 23 30)
  = true.
Proof.
  assert (HT : valid_date (mkDate 1 23 30)) by (unfold valid_date; simpl; lia).
  split; [exact HT|].
  destruct (isOpenNow_characterisation (mkDate 1 23 30) HT)
    as (_ & (day & Hday & Hsome) & _).
  injection Hday as <-.
  destruct (Hsome {[ "mon" := [("22:00", "02:00")] ]}) as [_ Hopen].
  apply (Hopen [("22:00", "02:00")]).
  - reflexivity.
  - exists "22:00", "02:00". split; [now left | reflexivity].
Defined.

(** C4, as stated, fails: the endpoint of ["50:00"] is 1560, neither 3000
    modulo 1440 nor below 1440. *)
Lemma endpoint_not_modulo : ~ wrapsModulo "50:00".
Proof.
  intros H. destruct (H 50 0) as (_ & _ & Hlt); [reflexivity..|].
  vm_compute in Hlt. discriminate Hlt.
Qed.

(** C4, amended. For hour and minute components whose minute mark
    [h * 60 + m] binary64 holds exactly: a mark within one day of the
    range, that is in [[-1440, 2880)], is brought to [(h * 60 + m) mod 1440]
    in [[0, 1440)]; any other mark is moved by one day only, towards the
    range, and stays outside it. *)
Theorem endpoint_single_wrap (time : string) (h m : Z) :
  parseInt (hourStr time) = Int h ->
  parseInt (minuteStr time ?? "0") = Int m ->
  safeInteger (h * 60) -> safeInteger (h * 60 + m) ->
  (- 1440 <= h * 60 + m < 2880 -> wrapsModulo time) /\
  (2880 <= h * 60 + m -> endpointMinutes time = Int (h * 60 + m - 1440)) /\
  (h * 60 + m < - 1440 -> endpointMinutes time = Int (h * 60 + m + 1440)).
Proof.
  intros Hh Hm Hsafe1 Hsafe2. unfold wrapsModulo, endpointMinutes.
  rewrite (toMinutes_Int time h m Hh Hm Hsafe1 Hsafe2).
  rewrite (normalize_Int _ Hsafe2).
  set (v := h * 60 + m) in *. split; [|split].
  - intros Hv h' m' Hh' Hm'.
    rewrite Hh in Hh'. rewrite Hm in Hm'.
    apply Int_inj in Hh', Hm'. subst h' m'. fold v.
    assert (Hmod : (if v <? 0 then v + 1440
                    else if 1440 <=? v then v - 1440 else v)
                   = v mod 1440).
    { destruct (Z.ltb_spec v 0).
      - apply (Z.mod_unique v 1440 (-1)); lia.
      - destruct (Z.leb_spec 1440 v).
        + apply (Z.mod_unique v 1440 1); lia.
        + symmetry. apply Z.mod_small; lia. }
    rewrite Hmod. unfold MINUTES_IN_DAY. int_arith.
    pose proof (Z.mod_pos_bound v 1440 ltac:(lia)).
    repeat split; [apply Z.leb_le | apply Z.ltb_lt]; lia.
  - intros Hv. destruct (Z.ltb_spec v 0); [lia|].
    destruct (Z.leb_spec 1440 v); [reflexivity | lia].
  - intros Hv. destruct (Z.ltb_spec v 0); [reflexivity | lia].
Qed.

Lemma endpoint_single_wrap_witness :
  wrapsModulo "25:30" /\ endpointMinutes "50:00" = Int 1560.
Proof.
  split.
  - apply (endpoint_single_wrap "25:30" 25 30);
      [reflexivity | reflexivity | safe_arith | safe_arith | lia].
  - apply (endpoint_single_wrap "50:00" 50 0);
      [reflexivity | reflexivity | safe_arith | safe_arith | lia].
Defined.

(** Beyond the integers binary64 holds exactly a mark may not move at all:
    the hour 99999999999999999999 is read as [10 ^ 20], the mark is
    [6 * 10 ^ 21], and taking a day off it changes nothing. *)
Example endpoint_beyond_safe_integers :
  toMinutes "99999999999999999999:00" = Int 6000000000000000000000 /\
  endpointMinutes "99999999999999999999:00" = Int 6000000000000000000000.
Proof. split; vm_compute; reflexivity. Qed.

(** C6, as stated, fails: with a non-numeric start and the end 17:00 the
    interval holds 10:00, and the evaluator reports open. *)
Lemma half_numeric_interval_matches :
  nonNumeric "closed" /\
  ~ neverMatches ("closed", "17:00") /\
  isOpenNow (Some {[ "mon" := [("closed", "17:00")] ]}) (mkDate 1 10 0)
  = true.
Proof.
  split; [reflexivity|]. split; [|reflexivity].
  intros H. specialize (H (Int 600)). vm_compute in H. discriminate H.
Qed.

Lemma split_nonempty (sep : ascii) (s : string) : split sep s <> [].
Proof.
  destruct s as [|c r]; simpl; [discriminate|].
  destruct (Ascii.eqb c sep); [discriminate|].
  now destruct (split sep r).
Qed.

Lemma split_no_colon (time : string) :
  minuteStr time = None -> hourStr time = time.
Proof.
  unfold minuteStr, hourStr. induction time as [|c r IH]; [reflexivity|].
  simpl. pose proof (split_nonempty ":" r) as Hne.
  destruct (Ascii.eqb c ":").
  - destruct (split ":" r); [easy | discriminate].
  - destruct (split ":" r) as [|h [|m t]]; [easy | | discriminate].
    intros _. now rewrite IH.
Qed.

Lemma num_add_NaN_r (a : number) : num_add a NaN = NaN.
Proof. now destruct a. Qed.

(** C6, amended. An interval both of whose endpoints are non-numeric never
    holds a minute, and a day made of such intervals is closed at every
    time; an endpoint is non-numeric as soon as one of its components is;
    a time string without a minute component is its hour component with
    the minutes 0. *)
Theorem non_numeric_interval :
  (forall start end_,
      nonNumeric start -> nonNumeric end_ -> neverMatches (start, end_)) /\
  (forall (S : HoursSchedule) (T : Date) intervals,
      todaysHours S T = Some intervals ->
      Forall (fun i => nonNumeric (fst i) /\ nonNumeric (snd i)) intervals ->
      isOpenNow (Some S) T = false) /\
  (forall time,
      parseInt (hourStr time) = NaN \/
      parseInt (minuteStr time ?? "0") = NaN -> nonNumeric time) /\
  (forall time,
      minuteStr time = None ->
      hourStr time = time /\
      toMinutes time = num_add (num_mul (parseInt time) (Int 60)) (Int 0)).
Proof.
  assert (Hnever : forall i, nonNumeric (fst i) -> nonNumeric (snd i) ->
                             neverMatches i).
  { intros [a b] Ha Hb current. unfold holds; simpl.
    unfold nonNumeric in Ha, Hb. simpl in Ha, Hb. rewrite Ha, Hb.
    now destruct current. }
  split; [|split; [|split]].
  - intros start end_ Hs He. now apply Hnever.
  - intros S T intervals Hday Hall.
    rewrite (isOpenNow_some S T intervals Hday). clear Hday.
    induction Hall as [|i l [Hi1 Hi2] _ IH]; [reflexivity|].
    simpl. rewrite (Hnever i Hi1 Hi2). exact IH.
  - intros time [H|H]; unfold nonNumeric, toMinutes; rewrite H.
    + reflexivity.
    + apply num_add_NaN_r.
  - intros time Hno. split; [now apply split_no_colon|].
    unfold toMinutes. now rewrite (split_no_colon time Hno), Hno.
Qed.

Lemma non_numeric_interval_witness :
  neverMatches ("closed", "n/a") /\ toMinutes "9" = Int 540.
Proof.
  destruct non_numeric_interval as (Hnever & _ & _ & Hhour).
  split.
  - apply (Hnever "closed" "n/a"); reflexivity.
  - destruct (Hhour "9" eq_refl) as [_ ->]. reflexivity.
Defined.

(** The scenarios of the evaluator: an overnight interval and the
    half-open boundary. *)
Example overnight_wrap :
  let S : HoursSchedule := {[ "mon" := [("22:00", "02:00")] ]} in
  isOpenNow (Some S) (mkDate 1 23 30) = true /\
  isOpenNow (Some S) (mkDate 1 1 30) = true /\
  isOpenNow (Some S) (mkDate 1 12 0) = false /\
  isOpenNow (Some S) (mkDate 2 23 30) = false.
Proof. repeat split; reflexivity. Qed.

Example half_open_boundary :
  isOpenNow (Some officeHours) (mkDate 1 9 0) = true /\
  isOpenNow (Some officeHours) (mkDate 1 16 59) = true /\
  isOpenNow (Some officeHours) (mkDate 1 17 0) = false.
Proof. repeat split; reflexivity. Qed.

(** ** The order of numbers and the sign of a difference *)

(** A difference that is not positive: the first value is the smaller. *)
Lemma difference_not_positive (a b : number) :
  a <> NaN -> b <> NaN ->
  num_gt (num_sub a b) (Int 0) = false -> num_le a b = true.
Proof.
  unfold num_gt, num_sub, num_lt, num_le, Int.
  destruct a as [| | |p], b as [| | |q]; simpl; try easy.
  intros _ _. pose proof (round53_positive (p + - q)) as Hsign.
  change (inject_Z 0) with 0%Q.
  destruct (Qcompare_spec 0 (round53 (p + - q))), (Qcompare_spec p q);
    try easy; intros _; exfalso;
    assert (0 < round53 (p + - q))%Q by (apply Hsign; lra); lra.
Qed.

(** A positive difference: the second value is the smaller. *)
Lemma difference_positive (a b : number) :
  num_gt (num_sub a b) (Int 0) = true -> num_le b a = true.
Proof.
  unfold num_gt, num_sub, num_lt, num_le, Int.
  destruct a as [| | |p], b as [| | |q]; simpl; try easy.
  pose proof (round53_positive (p + - q)) as Hsign.
  change (inject_Z 0) with 0%Q.
  destruct (Qcompare_spec 0 (round53 (p + - q))), (Qcompare_spec q p);
    try easy; intros _; exfalso;
    assert (0 < p + - q)%Q by (apply Hsign; lra); lra.
Qed.

(** ** Arrays: [filter] and [sort] *)

Section Arrays.
Context {A : Type}.

Lemma Array_filter_Forall (Q : A -> Prop) (callback : A -> IO bool)
  (l : list A) (w : World) :
  Forall Q l -> Forall Q (fst (Array_filter callback l w)).
Proof.
  intros H. revert w. induction H as [|x l Hx _ IH]; intros w; simpl.
  - constructor.
  - unfold bind. destruct (callback x w) as [keep w1].
    specialize (IH w1).
    destruct (Array_filter callback l w1) as [kept w2]. simpl in *.
    destruct keep; [now constructor | exact IH].
Qed.

Lemma Array_filter_length (callback : A -> IO bool) (l : list A)
  (w : World) :
  (length (fst (Array_filter callback l w)) <= length l)%nat.
Proof.
  revert w. induction l as [|x l IH]; intros w; simpl; [lia|].
  unfold bind. destruct (callback x w) as [keep w1]. specialize (IH w1).
  destruct (Array_filter callback l w1) as [kept w2]. simpl in *.
  destruct keep; simpl; lia.
Qed.

(** Only entries the callback accepted are kept. *)
Lemma Array_filter_accepted (Q : A -> Prop) (callback : A -> IO bool)
  (l : list A) (w : World) :
  (forall x w', fst (callback x w') = true -> Q x) ->
  Forall Q (fst (Array_filter callback l w)).
Proof.
  intros Hacc. revert w. induction l as [|x l IH]; intros w; simpl.
  - constructor.
  - unfold bind. pose proof (Hacc x w) as Hx.
    destruct (callback x w) as [keep w1]. specialize (IH w1).
    destruct (Array_filter callback l w1) as [kept w2]. simpl in *.
    destruct keep; [constructor; auto | exact IH].
Qed.

Context (comparefn : A -> A -> number).

Lemma insertSorted_length (x : A) (l : list A) :
  length (insertSorted comparefn x l) = S (length l).
Proof.
  induction l as [|y l IH]; simpl; [reflexivity|].
  destruct (goesAfter comparefn x y); simpl; now rewrite ?IH.
Qed.

Lemma Array_sort_length (l : list A) :
  length (Array_sort comparefn l) = length l.
Proof.
  induction l as [|x l IH]; simpl; [reflexivity|].
  now rewrite insertSorted_length, IH.
Qed.

Lemma insertSorted_Forall (Q : A -> Prop) (x : A) (l : list A) :
  Q x -> Forall Q l -> Forall Q (insertSorted comparefn x l).
Proof.
  intros Hx H. induction H as [|y l Hy Hl IH]; simpl.
  - now repeat constructor.
  - destruct (goesAfter comparefn x y); now repeat constructor.
Qed.

Lemma Array_sort_Forall (Q : A -> Prop) (l : list A) :
  Forall Q l -> Forall Q (Array_sort comparefn l).
Proof.
  induction 1 as [|x l Hx _ IH]; simpl; [constructor|].
  now apply insertSorted_Forall.
Qed.

Lemma insertSorted_Permutation (x : A) (l : list A) :
  Permutation (x :: l) (insertSorted comparefn x l).
Proof.
  induction l as [|y l IH]; simpl; [reflexivity|].
  destruct (goesAfter comparefn x y); [|reflexivity].
  rewrite perm_swap. now constructor.
Qed.

(** Sorting rearranges, it neither drops nor invents an entry. *)
Lemma Array_sort_Permutation (l : list A) :
  Permutation l (Array_sort comparefn l).
Proof.
  induction l as [|x l IH]; simpl; [reflexivity|].
  rewrite <- insertSorted_Permutation. now constructor.
Qed.

(** Insertion keeps a list sorted, for an order [R] the comparator decides
    on the values [Q] it is used on. *)
Context (R : A -> A -> Prop) (Q : A -> Prop).
Context (R_trans : forall a b c, R a b -> R b c -> R a c).
Context (before : forall a b, Q a -> Q b ->
                              goesAfter comparefn a b = false -> R a b).
Context (after : forall a b, Q a -> Q b ->
                             goesAfter comparefn a b = true -> R b a).

Lemma insertSorted_sorted (x : A) (l : list A) :
  Q x -> Forall Q l -> StronglySorted R l ->
  StronglySorted R (insertSorted comparefn x l).
Proof.
  intros Hx HQ Hs. induction Hs as [|y l Hs IH Hy]; simpl.
  - repeat constructor.
  - inversion HQ as [|? ? HQy HQl]; subst.
    destruct (goesAfter comparefn x y) eqn:Hc.
    + constructor; [now apply IH|].
      apply insertSorted_Forall; [now apply after | exact Hy].
    + constructor; [now constructor|].
      constructor; [now apply before|].
      eapply List.Forall_impl; [|exact Hy]. intros z Hz.
      eapply R_trans; [|exact Hz]. now apply before.
Qed.

Lemma Array_sort_sorted (l : list A) :
  Forall Q l -> StronglySorted R (Array_sort comparefn l).
Proof.
  induction 1 as [|x l Hx Hl IH]; simpl; [constructor|].
  apply insertSorted_sorted; [exact Hx | | exact IH].
  now apply Array_sort_Forall.
Qed.

End Arrays.

Lemma take_sorted {A : Type} (R : A -> A -> Prop) (n : nat) (l : list A) :
  StronglySorted R l -> StronglySorted R (take n l).
Proof.
  intros H. revert n. induction H as [|x l Hs IH Hx]; intros [|n]; simpl;
    try constructor.
  - apply IH.
  - clear -Hx. revert n. induction Hx as [|y l Hy _ IH]; intros [|n]; simpl;
      constructor; auto.
Qed.

Lemma sorted_lookup {A : Type} (R : A -> A -> Prop) (l : list A) :
  StronglySorted R l ->
  forall (i j : nat) a b,
    (i < j)%nat -> l !! i = Some a -> l !! j = Some b -> R a b.
Proof.
  induction 1 as [|x l Hs IH Hx]; intros i j a b Hij Hi Hj.
  - discriminate.
  - destruct j as [|j]; [lia|]. simpl in Hj. destruct i as [|i].
    + injection Hi as <-. rewrite Forall_forall in Hx. apply Hx.
      eapply list_elem_of_lookup_2. exact Hj.
    + simpl in Hi. apply (IH i j); [lia | assumption..].
Qed.

(** ** The filter-and-rank stage *)

Section Pipeline.
Context (P : Platform).

Lemma keepRecord_eq (env : Env) (c : Filters.t) (record : LocationRecord)
  (w : World) :
  keepRecord env c record w =
  if staticChecks c record then
    if Filters.openNow c then
      (isOpenNow (Loc.hours record) (clock env (ticks w))
       && negb (radiusExceeded (Filters.radiusKm c) record),
       mkWorld (S (ticks w)) (log w))
    else (negb (radiusExceeded (Filters.radiusKm c) record), w)
  else (false, w).
Proof.
  unfold keepRecord, staticChecks.
  destruct (categoryMismatch _ _); [reflexivity|].
  destruct (flagMismatch (Filters.accessible c) _); [reflexivity|].
  destruct (flagMismatch (Filters.pets c) _); [reflexivity|].
  destruct (genderMismatch _ _); [reflexivity|]. simpl.
  destruct (Filters.openNow c); [|reflexivity].
  unfold isOpenNowDefault, bind, newDate, ret.
  now destruct (isOpenNow _ _).
Qed.

Lemma applyFilters_eq (env : Env) (records : list LocationRecord)
  (c : Filters.t) (w : World) :
  fst (applyFilters P env records c w) =
  take MAX_RESULTS
    (Array_sort byDistance
       (fst (Array_filter (keepRecord env c)
               (map (fillDistance P c) records) w))).
Proof.
  unfold applyFilters, bind, ret.
  now destruct (Array_filter _ _ w).
Qed.

Lemma applyFilters_sorted (env : Env) (records : list LocationRecord)
  (c : Filters.t) (w : World) :
  distancesComparable P c records ->
  sortedByDistance (fst (applyFilters P env records c w)).
Proof.
  intros Hcmp. rewrite applyFilters_eq. apply take_sorted.
  apply (Array_sort_sorted byDistance _ (fun r => distanceOf r <> NaN)).
  - intros x y z. apply num_le_trans.
  - intros x y Hx Hy. now apply difference_not_positive.
  - intros x y _ _. apply difference_positive.
  - apply Array_filter_Forall. apply Forall_map. exact Hcmp.
Qed.

(** Every entry of the result is an input record with its distance filled
    in. *)
Lemma applyFilters_from_input (env : Env) (records : list LocationRecord)
  (c : Filters.t) (w : World) :
  Forall (fun r => In r (map (fillDistance P c) records))
    (fst (applyFilters P env records c w)).
Proof.
  rewrite applyFilters_eq. apply Forall_take, Array_sort_Forall.
  apply Array_filter_Forall. rewrite Forall_forall.
  intros r Hr. now apply list_elem_of_In.
Qed.

Lemma sorted_absentAfterFinite (out : list LocationRecord) :
  sortedByDistance out -> absentAfterFinite out.
Proof.
  intros Hs i j a b Hi Hj Ha (d & Hb & Hd).
  destruct (Nat.lt_trichotomy i j) as [Hlt|[Heq|Hgt]]; [| |exact Hgt].
  - pose proof (sorted_lookup _ _ Hs i j a b Hlt Hi Hj) as Hle.
    unfold distanceOf in Hle. rewrite Ha, Hb in Hle. simpl in Hle.
    destruct d; discriminate.
  - subst j. rewrite Hi in Hj. injection Hj as <-. congruence.
Qed.

(** C3, amended. [applyFilters] returns at most 50 entries and no more than
    it is given; when no candidate's distance is NaN its output, for the
    given list and for every permutation of it, is sorted ascending by
    distance with an absent distance counting as positive infinity, so
    that every entry without a distance is placed after every entry with a
    finite one. *)
Theorem applyFilters_bounded_and_sorted (env : Env)
  (records : list LocationRecord) (c : Filters.t) (w : World) :
  (length (fst (applyFilters P env records c w)) <= 50)%nat /\
  (length (fst (applyFilters P env records c w)) <= length records)%nat /\
  (distancesComparable P c records ->
   forall records' w',
     Permutation records records' ->
     sortedByDistance (fst (applyFilters P env records' c w')) /\
     absentAfterFinite (fst (applyFilters P env records' c w'))).
Proof.
  rewrite applyFilters_eq, length_take, Array_sort_length.
  pose proof (Array_filter_length (keepRecord env c)
                (map (fillDistance P c) records) w) as Hlen.
  rewrite length_map in Hlen. unfold MAX_RESULTS.
  split; [lia|]. split; [lia|].
  intros Hcmp records' w' Hperm.
  assert (Hcmp' : distancesComparable P c records').
  { unfold distancesComparable in *. now rewrite <- Hperm. }
  pose proof (applyFilters_sorted env records' c w' Hcmp') as Hs.
  split; [exact Hs | now apply sorted_absentAfterFinite].
Qed.

End Pipeline.

Lemma applyFilters_bounded_and_sorted_witness :
  sortedByDistance
    (fst (applyFilters samplePlatform (fixedClock (mkDate 1 10 0))
            (rev sampleMock) (noFilters (Int 5)) firstWorld)).
Proof.
  destruct (applyFilters_bounded_and_sorted samplePlatform
              (fixedClock (mkDate 1 10 0)) sampleMock (noFilters (Int 5))
              firstWorld) as (_ & _ & Hsorted).
  apply Hsorted.
  - repeat constructor; discriminate.
  - apply Permutation_rev.
Defined.

(** A NaN distance cannot be put in order with any other distance, whatever
    the arrangement. *)
Lemma NaN_distance_unordered (out : list LocationRecord)
  (a b : LocationRecord) (d : number) :
  In a out -> In b out -> a <> b ->
  Loc.meters a = Some NaN -> Loc.meters b = Some d ->
  ~ ascendingByDistance out.
Proof.
  intros Ha Hb Hne Hma Hmb Hasc.
  apply list_elem_of_In, list_elem_of_lookup_1 in Ha as [i Hi].
  apply list_elem_of_In, list_elem_of_lookup_1 in Hb as [j Hj].
  destruct (Nat.lt_trichotomy i j) as [Hlt|[Heq|Hgt]].
  - now specialize (Hasc i j a b NaN d Hlt Hi Hj Hma Hmb).
  - subst j. rewrite Hi in Hj. now injection Hj.
  - specialize (Hasc j i b a d NaN Hgt Hj Hi Hmb Hma). now destruct d.
Qed.

(** C3, as stated, fails.  An entry with an infinite distance ties with an
    entry without one and stays behind it; and around a NaN distance the
    comparator is no ordering: 2 stays ahead of 1, and no arrangement of
    the three entries would be ascending. *)
Lemma applyFilters_order_fails :
  ~ claimedOrder
      (fst (applyFilters samplePlatform (fixedClock (mkDate 1 10 0))
              unknownThenInfinite (noFilters (Int 5)) firstWorld)) /\
  ~ claimedOrder
      (fst (applyFilters samplePlatform (fixedClock (mkDate 1 10 0))
              aroundNaN (noFilters (Int 5)) firstWorld)) /\
  (forall out, Permutation aroundNaN out -> ~ claimedOrder out).
Proof.
  split; [|split].
  - assert (Hout : fst (applyFilters samplePlatform
                          (fixedClock (mkDate 1 10 0)) unknownThenInfinite
                          (noFilters (Int 5)) firstWorld)
                   = unknownThenInfinite) by (vm_compute; reflexivity).
    rewrite Hout. intros [_ Hlast].
    specialize (Hlast 0%nat 1%nat _ _ eq_refl eq_refl eq_refl).
    simpl in Hlast. assert (1 < 0)%nat by (apply Hlast; discriminate). lia.
  - assert (Hout : fst (applyFilters samplePlatform
                          (fixedClock (mkDate 1 10 0)) aroundNaN
                          (noFilters (Int 5)) firstWorld)
                   = aroundNaN) by (vm_compute; reflexivity).
    rewrite Hout. intros [Hasc _].
    specialize (Hasc 0%nat 2%nat _ _ (Int 2) (Int 1) ltac:(lia) eq_refl
                  eq_refl eq_refl eq_refl).
    discriminate Hasc.
  - intros out Hperm [Hasc _]. revert Hasc.
    apply (NaN_distance_unordered out (withDistance "nan" (Some NaN))
             (withDistance "one" (Some (Int 1))) (Int 1)).
    + apply (Permutation_in _ Hperm). right. now left.
    + apply (Permutation_in _ Hperm). right. right. now left.
    + discriminate.
    + reflexivity.
    + reflexivity.
Qed.

Section Purity.
Context (P : Platform).

Lemma Array_filter_same_readings (env env' : Env) (c : Filters.t)
  (l : list LocationRecord) :
  forall w w',
    (forall k, clock env (ticks w + k) = clock env' (ticks w' + k)) ->
    fst (Array_filter (keepRecord env c) l w) =
    fst (Array_filter (keepRecord env' c) l w').
Proof.
  induction l as [|x l IH]; intros w w' Hclock; simpl; [reflexivity|].
  unfold bind. rewrite !keepRecord_eq.
  assert (Hnow : clock env (ticks w) = clock env' (ticks w')).
  { specialize (Hclock 0%nat). now rewrite !Nat.add_0_r in Hclock. }
  destruct (staticChecks c x); [destruct (Filters.openNow c)|].
  - rewrite Hnow.
    specialize (IH (mkWorld (S (ticks w)) (log w))
                  (mkWorld (S (ticks w')) (log w'))).
    destruct (Array_filter (keepRecord env c) l _) as [kept w1].
    destruct (Array_filter (keepRecord env' c) l _) as [kept' w1'].
    simpl in *. rewrite IH; [reflexivity|].
    intros k. specialize (Hclock (S k)).
    now rewrite !Nat.add_succ_r in Hclock.
  - specialize (IH w w' Hclock).
    destruct (Array_filter (keepRecord env c) l w) as [kept w1].
    destruct (Array_filter (keepRecord env' c) l w') as [kept' w1'].
    simpl in *. now rewrite IH.
  - specialize (IH w w' Hclock).
    destruct (Array_filter (keepRecord env c) l w) as [kept w1].
    destruct (Array_filter (keepRecord env' c) l w') as [kept' w1'].
    simpl in *. now rewrite IH.
Qed.

Lemma Array_filter_no_clock (env : Env) (c : Filters.t)
  (l : list LocationRecord) (w : World) :
  Filters.openNow c = false ->
  Array_filter (keepRecord env c) l w =
  (List.filter
     (fun r => staticChecks c r
               && negb (radiusExceeded (Filters.radiusKm c) r)) l,
   w).
Proof.
  intros Hoff. induction l as [|x l IH]; simpl; [reflexivity|].
  unfold bind. rewrite keepRecord_eq, Hoff.
  destruct (staticChecks c x); rewrite IH; reflexivity.
Qed.

Lemma Array_filter_log (env : Env) (c : Filters.t)
  (l : list LocationRecord) :
  forall w, log (snd (Array_filter (keepRecord env c) l w)) = log w.
Proof.
  induction l as [|x l IH]; intros w; simpl; [reflexivity|].
  unfold bind. rewrite keepRecord_eq.
  destruct (staticChecks c x); [destruct (Filters.openNow c)|].
  - specialize (IH (mkWorld (S (ticks w)) (log w))).
    now destruct (Array_filter (keepRecord env c) l _).
  - specialize (IH w). now destruct (Array_filter (keepRecord env c) l w).
  - specialize (IH w). now destruct (Array_filter (keepRecord env c) l w).
Qed.

Lemma applyFilters_snd (env : Env) (records : list LocationRecord)
  (c : Filters.t) (w : World) :
  snd (applyFilters P env records c w) =
  snd (Array_filter (keepRecord env c) (map (fillDistance P c) records) w).
Proof.
  unfold applyFilters, bind, ret. now destruct (Array_filter _ _ w).
Qed.

Lemma applyFilters_same_readings (env env' : Env)
  (records : list LocationRecord) (c : Filters.t) (w w' : World) :
  (forall k, clock env (ticks w + k) = clock env' (ticks w' + k)) ->
  fst (applyFilters P env records c w) =
  fst (applyFilters P env' records c w').
Proof.
  intros Hclock. rewrite !applyFilters_eq.
  f_equal. f_equal. now apply Array_filter_same_readings.
Qed.

Lemma applyFilters_log (env : Env) (records : list LocationRecord)
  (c : Filters.t) (w : World) :
  log (snd (applyFilters P env records c w)) = log w.
Proof. rewrite applyFilters_snd. apply Array_filter_log. Qed.

(** C5, amended. [applyFilters] is a function of the records, the criteria
    and the clock readings taken during the call: with the open-now filter
    off it reads no clock and its result depends on nothing else; with the
    filter on, two calls that read the same times return the same result;
    it leaves no other trace in the world. *)
Theorem applyFilters_deterministic (records : list LocationRecord)
  (c : Filters.t) :
  (Filters.openNow c = false ->
   forall env env' w w',
     fst (applyFilters P env records c w) =
     fst (applyFilters P env' records c w') /\
     snd (applyFilters P env records c w) = w) /\
  (forall env env' w w',
      (forall k, clock env (ticks w + k) = clock env' (ticks w' + k)) ->
      fst (applyFilters P env records c w) =
      fst (applyFilters P env' records c w')) /\
  (forall env w, log (snd (applyFilters P env records c w)) = log w).
Proof.
  split; [|split].
  - intros Hoff env env' w w'. split.
    + rewrite !applyFilters_eq.
      now rewrite !Array_filter_no_clock by exact Hoff.
    + rewrite applyFilters_snd.
      now rewrite Array_filter_no_clock by exact Hoff.
  - intros env env' w w'. apply applyFilters_same_readings.
  - intros env w. apply applyFilters_log.
Qed.

End Purity.

Lemma applyFilters_deterministic_witness :
  fst (applyFilters samplePlatform (fixedClock (mkDate 1 10 0)) [officeRecord]
         (noFilters (Int 5)) firstWorld) =
  fst (applyFilters samplePlatform (fixedClock (mkDate 1 18 0)) [officeRecord]
         (noFilters (Int 5)) (mkWorld 7 [FallbackUsed])).
Proof.
  destruct (applyFilters_deterministic samplePlatform [officeRecord]
              (noFilters (Int 5))) as (Hoff & _ & _).
  apply Hoff. reflexivity.
Defined.

(** C5, as stated, fails: with the open-now filter set, the same records and
    criteria give the record at 10:00 on a Monday and nothing at 18:00. *)
Lemma applyFilters_depends_on_clock : ~ pureOfArguments samplePlatform.
Proof.
  intros H.
  specialize (H (fixedClock (mkDate 1 10 0)) (fixedClock (mkDate 1 18 0))
                firstWorld firstWorld [officeRecord] openFilter).
  vm_compute in H. discriminate H.
Qed.

(** ** The radius rule *)

Lemma radiusExceeded_finite (radiusKm : number) (record : LocationRecord)
  (q : Q) :
  Loc.meters record = Some (Fin q) ->
  radiusExceeded radiusKm record
  = num_gt (Fin q) (num_mul radiusKm (Int 1000)).
Proof. unfold radiusExceeded. now intros ->. Qed.

(** No entry of a result lies beyond the radius. *)
Lemma applyFilters_within_radius (P : Platform) (env : Env)
  (records : list LocationRecord) (c : Filters.t) (w : World) :
  Forall (fun r => radiusExceeded (Filters.radiusKm c) r = false)
    (fst (applyFilters P env records c w)).
Proof.
  rewrite applyFilters_eq. apply Forall_take, Array_sort_Forall.
  apply Array_filter_accepted. intros x w' Hkeep.
  rewrite keepRecord_eq in Hkeep.
  destruct (staticChecks c x); [|discriminate].
  destruct (Filters.openNow c); simpl in Hkeep.
  - apply andb_true_iff in Hkeep. now apply negb_true_iff.
  - now apply negb_true_iff.
Qed.

(** C7. Under the radius rule a record whose distance is present and finite
    is retained exactly when its meters do not exceed [radiusKm * 1000],
    the product as the platform computes it, a distance equal to the bound
    included; for a whole number of kilometres the bound is that many
    thousand meters exactly; a record with no distance, or with one that
    is not finite, is never excluded; the rule is the last check of the
    [filter] callback, and no entry of a result of [applyFilters] breaks
    it. *)
Theorem radius_rule (radiusKm : number) (record : LocationRecord) :
  (forall m,
      Loc.meters record = Some m -> isFinite m = true ->
      (radiusExceeded radiusKm record = false <->
       num_gt m (num_mul radiusKm (Int 1000)) = false)) /\
  (forall q k,
      Loc.meters record = Some (Fin q) -> radiusKm = Fin k ->
      (radiusExceeded radiusKm record = false <->
       (q <= round53 (k * 1000))%Q)) /\
  (forall q k,
      Loc.meters record = Some (Fin q) -> radiusKm = Int k ->
      safeInteger (k * 1000) ->
      (radiusExceeded radiusKm record = false <->
       (q <= inject_Z (k * 1000))%Q)) /\
  (forall m,
      Loc.meters record = Some m -> isFinite m = true ->
      num_eq m (num_mul radiusKm (Int 1000)) ->
      radiusExceeded radiusKm record = false) /\
  (Loc.meters record = None \/
   (exists m, Loc.meters record = Some m /\ isFinite m = false) ->
   radiusExceeded radiusKm record = false) /\
  (forall env c w,
      Filters.radiusKm c = radiusKm ->
      (fst (keepRecord env c record w) = true ->
       radiusExceeded radiusKm record = false) /\
      (staticChecks c record = true -> Filters.openNow c = false ->
       fst (keepRecord env c record w)
       = negb (radiusExceeded radiusKm record))) /\
  (forall P env records c w,
      Filters.radiusKm c = radiusKm ->
      In record (fst (applyFilters P env records c w)) ->
      radiusExceeded radiusKm record = false).
Proof.
  assert (Hrational : forall q b,
             Loc.meters record = Some (Fin q) ->
             num_mul radiusKm (Int 1000) = Fin b ->
             (radiusExceeded radiusKm record = false <-> (q <= b)%Q)).
  { intros q b Hm Hb. rewrite (radiusExceeded_finite _ _ q Hm), Hb.
    unfold num_gt, num_lt.
    destruct (Qcompare_spec b q); split; try easy; intros; lra. }
  split; [|split; [|split; [|split; [|split; [|split]]]]].
  - intros [| | |q] Hm Hfin; try discriminate.
    now rewrite (radiusExceeded_finite _ _ q Hm).
  - intros q k Hm ->. now apply Hrational.
  - intros q k Hm -> Hsafe. apply Hrational; [exact Hm|].
    now apply num_mul_Int.
  - intros [| | |q] Hm Hfin Heq; try discriminate.
    rewrite (radiusExceeded_finite _ _ q Hm).
    destruct (num_mul radiusKm (Int 1000)) as [| | |b]; try easy.
    unfold num_gt, num_lt. simpl in Heq.
    destruct (Qcompare_spec b q); try easy. lra.
  - unfold radiusExceeded. intros [->|(m & -> & ->)]; reflexivity.
  - intros env c w <-. rewrite keepRecord_eq. split.
    + destruct (staticChecks c record); [|discriminate].
      destruct (Filters.openNow c); simpl.
      * rewrite andb_true_iff, negb_true_iff. tauto.
      * now rewrite negb_true_iff.
    + now intros -> ->.
  - intros P env records c w <- Hin.
    pose proof (applyFilters_within_radius P env records c w) as Hall.
    rewrite List.Forall_forall in Hall. now apply Hall.
Qed.

Lemma radius_rule_witness :
  radiusExceeded (Int 5) (withDistance "edge" (Some (Int 5000))) = false /\
  radiusExceeded (Int 5) (withDistance "far" (Some (Int 5001))) = true /\
  radiusExceeded (Int 5) (withDistance "unknown" None) = false.
Proof.
  split; [|split].
  - destruct (radius_rule (Int 5) (withDistance "edge" (Some (Int 5000))))
      as (_ & _ & _ & Hedge & _).
    apply (Hedge (Int 5000)); reflexivity.
  - destruct (radius_rule (Int 5) (withDistance "far" (Some (Int 5001))))
      as (_ & _ & Hfar & _).
    destruct (radiusExceeded (Int 5) (withDistance "far" (Some (Int 5001))))
      eqn:Hx; [reflexivity|].
    assert (Hsafe : safeInteger (5 * 1000)) by safe_arith.
    destruct (Hfar (inject_Z 5001) 5 eq_refl eq_refl Hsafe) as [Hle _].
    specialize (Hle eq_refl). vm_compute in Hle. now elim Hle.
  - destruct (radius_rule (Int 5) (withDistance "unknown" None))
      as (_ & _ & _ & _ & Hnone & _).
    apply Hnone. now left.
Defined.

(** The bound of the radius rule is the rounded product: the radius read
    from ["1.001"] is just below 1.001, its product with 1000 is
    1000.9999999999999, and a record at 1001 m is left out. *)
Example radius_bound_is_rounded :
  radiusExceeded (parseFloat "1.001") (withDistance "edge" (Some (Int 1001)))
  = true /\
  num_mul (parseFloat "1.001") (Int 1000)
  = Fin (8804889115230207 # 8796093022208) /\
  radiusExceeded (parseFloat "1.001")
    (withDistance "edge" (Some (Fin (8804889115230207 # 8796093022208))))
  = false.
Proof. repeat split; vm_compute; reflexivity. Qed.

(** ** The coordinate resolver *)

Section Resolver.
Context (P : Platform).

(** What the resolver makes of the geometry when no pair of fields is
    numeric. *)
Lemma extractCoordinates_geometry (row : NearbyLocationRow) :
  noNumericFields row ->
  (forall x y,
      geometryStartsWith P row x y -> extractCoordinates P row = (y, x)) /\
  (unusableGeometry P (Row.geom row) ->
   extractCoordinates P row = (None, None)) /\
  ((exists x y, geometryStartsWith P row x y) \/
   unusableGeometry P (Row.geom row)).
Proof.
  intros [H1 H2].
  assert (Hfields : extractCoordinates P row =
                    match Row.geom row with
                    | GeomObject (Some (ArrayOf (lng :: lat :: _))) =>
                        (lat, lng)
                    | GeomString (String _ _ as text) =>
                        match JSON_parse P text with
                        | Some (JsonWith (Some (ArrayOf (lng :: lat :: _)))) =>
                            (lat, lng)
                        | _ => (None, None)
                        end
                    | _ => (None, None)
                    end).
  { unfold extractCoordinates.
    destruct (Row.latitude row), (Row.longitude row), (Row.lat row),
      (Row.lng row); destruct H1, H2; try discriminate; reflexivity. }
  rewrite Hfields. clear Hfields. unfold geometryStartsWith.
  split; [|split].
  - intros x y [(rest & ->)|(text & rest & -> & Hne & Hparse)].
    + reflexivity.
    + destruct text as [|ch text]; [easy|]. now rewrite Hparse.
  - destruct (Row.geom row) as [|[[|[|x [|y rest]]]|]|[|ch text]|];
      simpl; try easy.
    destruct (JSON_parse P (String ch text))
      as [[|[[|[|x [|y rest]]]|]]|]; simpl; easy.
  - destruct (Row.geom row) as [|[[|[|x [|y rest]]]|]|[|ch text]|];
      simpl; try (now right).
    + left. exists x, y. left. now exists rest.
    + destruct (JSON_parse P (String ch text))
        as [[|[[|[|x [|y rest]]]|]]|] eqn:Hparse; simpl;
        try (now right).
      left. exists x, y. right. exists (String ch text), rest.
      repeat split; [discriminate | exact Hparse].
Qed.

(** C10, amended. [extractCoordinates] returns both coordinates or none,
    except for a row without a numeric pair of fields whose geometry
    carries a coordinates array with exactly one of its first two elements
    absent.  A row with a numeric [latitude] and no numeric [longitude] is
    resolved from the later shapes: from [lat]/[lng] when both are numeric,
    else from the first two elements of the geometry's coordinates,
    swapped, and to no coordinates when the geometry has no such pair. *)
Theorem extractCoordinates_both_or_neither (row : NearbyLocationRow) :
  (bothOrNeither (extractCoordinates P row) <->
   ~ (noNumericFields row /\
      exists x y, oneMissing x y /\ geometryStartsWith P row x y)) /\
  (forall a,
      Row.latitude row = Some a -> Row.longitude row = None ->
      (forall b c,
          Row.lat row = Some b -> Row.lng row = Some c ->
          extractCoordinates P row = (Some b, Some c)) /\
      (Row.lat row = None \/ Row.lng row = None ->
       (forall x y,
           geometryStartsWith P row x y ->
           extractCoordinates P row = (y, x)) /\
       (unusableGeometry P (Row.geom row) ->
        extractCoordinates P row = (None, None)))).
Proof.
  split.
  - split.
    + intros Hboth (Hno & x & y & Hone & Hgeom).
      destruct (extractCoordinates_geometry row Hno) as (Hpair & _).
      rewrite (Hpair x y Hgeom) in Hboth.
      destruct Hboth as [(latitude & longitude & [= -> ->])|[= -> ->]];
        destruct Hone as [[H1 H2]|[H1 H2]]; congruence.
    + intros Hnot.
      assert (Hfields : noNumericFields row \/
                        exists latitude longitude,
                          extractCoordinates P row
                          = (Some latitude, Some longitude)).
      { unfold noNumericFields, extractCoordinates.
        destruct (Row.latitude row), (Row.longitude row);
          try (right; eauto; fail);
          destruct (Row.lat row), (Row.lng row);
          try (right; eauto; fail); left; auto. }
      destruct Hfields as [Hno|Hpair]; [|now left].
      destruct (extractCoordinates_geometry row Hno)
        as (Hpair & Hnone & [(x & y & Hgeom)|Hbad]).
      * rewrite (Hpair x y Hgeom).
        destruct x as [x|], y as [y|].
        -- left. eauto.
        -- elim Hnot. split; [exact Hno|]. exists (Some x), None.
           split; [right; split; congruence | exact Hgeom].
        -- elim Hnot. split; [exact Hno|]. exists None, (Some y).
           split; [left; split; congruence | exact Hgeom].
        -- now right.
      * right. now apply Hnone.
  - intros a Hlat Hlng.
    assert (Halias : forall b c,
               Row.lat row = Some b -> Row.lng row = Some c ->
               extractCoordinates P row = (Some b, Some c)).
    { intros b c Hb Hc. unfold extractCoordinates.
      now rewrite Hlat, Hlng, Hb, Hc. }
    assert (Hlater : Row.lat row = None \/ Row.lng row = None ->
                     (forall x y,
                         geometryStartsWith P row x y ->
                         extractCoordinates P row = (y, x)) /\
                     (unusableGeometry P (Row.geom row) ->
                      extractCoordinates P row = (None, None))).
    { intros Hone.
      destruct (extractCoordinates_geometry row) as (H1 & H2 & _).
      - split; [now right | exact Hone].
      - now split. }
    split; [exact Halias | exact Hlater].
Qed.

(** C8. One point given as [lat]/[lng] fields, as a geometry object with
    [coordinates] in (longitude, latitude) order, or as that object
    serialised as text, resolves to the same (latitude, longitude) pair. *)
Theorem extractCoordinates_same_point (phi lambda : number)
  (byFields byObject byText : NearbyLocationRow) (text : string) :
  (Row.latitude byFields = None \/ Row.longitude byFields = None) ->
  Row.lat byFields = Some phi -> Row.lng byFields = Some lambda ->
  noNumericFields byObject ->
  Row.geom byObject = GeomObject (Some (ArrayOf [Some lambda; Some phi])) ->
  noNumericFields byText ->
  Row.geom byText = GeomString text ->
  JSON_parse P text
  = Some (JsonWith (Some (ArrayOf [Some lambda; Some phi]))) ->
  text <> EmptyString ->
  extractCoordinates P byFields = (Some phi, Some lambda) /\
  extractCoordinates P byObject = (Some phi, Some lambda) /\
  extractCoordinates P byText = (Some phi, Some lambda).
Proof.
  intros Hf Hlat Hlng [Ho1 Ho2] Hobj [Ht1 Ht2] Htext Hparse Hne.
  unfold extractCoordinates. repeat split.
  - rewrite Hlat, Hlng.
    destruct Hf as [->| ->]; [reflexivity|].
    now destruct (Row.latitude byFields).
  - rewrite Hobj.
    destruct (Row.latitude byObject), (Row.longitude byObject),
      (Row.lat byObject), (Row.lng byObject);
      destruct Ho1, Ho2; try discriminate; reflexivity.
  - rewrite Htext. destruct text as [|ch text]; [easy|]. rewrite Hparse.
    destruct (Row.latitude byText), (Row.longitude byText),
      (Row.lat byText), (Row.lng byText);
      destruct Ht1, Ht2; try discriminate; reflexivity.
Qed.

End Resolver.

Lemma extractCoordinates_same_point_witness :
  extractCoordinates samplePlatform
    (sampleRow None None (Some torontoLat) (Some torontoLng) GeomFalsy)
  = (Some torontoLat, Some torontoLng) /\
  extractCoordinates samplePlatform
    (sampleRow None None None None
       (GeomObject (Some (ArrayOf [Some torontoLng; Some torontoLat]))))
  = (Some torontoLat, Some torontoLng) /\
  extractCoordinates samplePlatform
    (sampleRow None None None None (GeomString pointText))
  = (Some torontoLat, Some torontoLng).
Proof.
  apply (extractCoordinates_same_point samplePlatform torontoLat torontoLng
           _ _ _ pointText);
    try reflexivity; try (split; now left); try (now left).
  discriminate.
Defined.

Lemma extractCoordinates_both_or_neither_witness :
  extractCoordinates samplePlatform
    (sampleRow (Some torontoLat) None None None
       (GeomObject (Some (ArrayOf [Some (Int 1); Some (Int 2)]))))
  = (Some (Int 2), Some (Int 1)) /\
  extractCoordinates samplePlatform
    (sampleRow (Some torontoLat) None None (Some torontoLng) GeomFalsy)
  = (None, None).
Proof.
  split.
  - destruct (extractCoordinates_both_or_neither samplePlatform
                (sampleRow (Some torontoLat) None None None
                   (GeomObject
                      (Some (ArrayOf [Some (Int 1); Some (Int 2)])))))
      as [_ Hone].
    destruct (Hone torontoLat eq_refl eq_refl) as [_ Hlater].
    destruct (Hlater (or_introl eq_refl)) as [Hpair _].
    apply Hpair. left. now exists [].
  - destruct (extractCoordinates_both_or_neither samplePlatform
                (sampleRow (Some torontoLat) None None (Some torontoLng)
                   GeomFalsy)) as [_ Hone].
    destruct (Hone torontoLat eq_refl eq_refl) as [_ Hlater].
    destruct (Hlater (or_introl eq_refl)) as [_ Hnone].
    now apply Hnone.
Defined.

(** C10, as stated, fails: of a geometry whose coordinates are
    [[null, 1]] the resolver returns the latitude 1 and no longitude. *)
Lemma extractCoordinates_half_pair :
  extractCoordinates samplePlatform
    (sampleRow None None None None
       (GeomObject (Some (ArrayOf [None; Some (Int 1)]))))
  = (Some (Int 1), None) /\
  ~ bothOrNeither
      (extractCoordinates samplePlatform
         (sampleRow None None None None
            (GeomObject (Some (ArrayOf [None; Some (Int 1)]))))).
Proof.
  split; [reflexivity|].
  intros [(latitude & longitude & H)|H]; discriminate H.
Qed.

(** ** The request handler *)

Lemma parseNumber_None (value : option string) :
  parseNumber value = None <-> unusable value.
Proof.
  unfold parseNumber, unusable. destruct value as [s|].
  - split.
    + destruct (parseFloat s) eqn:Hp; try discriminate.
      intros _. right. now exists s.
    + intros [H|(s' & [= <-] & ->)]; [discriminate | reflexivity].
  - split; [now left | reflexivity].
Qed.

Lemma emitted_nothing {A : Type} (m : IO A) (w : World) :
  snd (m w) = w -> emitted m w = [].
Proof. unfold emitted. intros ->. apply drop_all. Qed.

Section Handler.
Context (P : Platform) (mockLocations : list LocationRecord).

(** C9. When [lat] or [lng] is missing or does not parse as a number, [GET]
    answers with status 400 and an error message, and does nothing else:
    no call to the store, no use of the fallback dataset. *)
Theorem GET_rejects_unusable_coordinates (env : Env)
  (searchParams : list (string * string)) (w : World) :
  unusable (searchParams_get searchParams "lat") \/
  unusable (searchParams_get searchParams "lng") ->
  fst (GET P mockLocations env searchParams w) = missingCoordinates /\
  snd (GET P mockLocations env searchParams w) = w /\
  emitted (GET P mockLocations env searchParams) w = [] /\
  (forall args,
      ~ In (RpcCalled args) (emitted (GET P mockLocations env searchParams) w))
  /\ ~ In FallbackUsed (emitted (GET P mockLocations env searchParams) w).
Proof.
  intros Hbad.
  assert (Hrun : GET P mockLocations env searchParams w
                 = (missingCoordinates, w)).
  { unfold GET. destruct Hbad as [H|H]; apply parseNumber_None in H;
      rewrite H; [reflexivity|].
    now destruct (parseNumber (searchParams_get searchParams "lat")). }
  assert (Hnone : emitted (GET P mockLocations env searchParams) w = []).
  { apply emitted_nothing. now rewrite Hrun. }
  rewrite Hrun, Hnone. simpl. repeat split; auto.
Qed.

Lemma buildResponse_eq (env : Env) (records : list LocationRecord)
  (c : Filters.t) (w : World) :
  buildResponse P env records c w =
  (mkResponse 200 (ResultsBody (fst (applyFilters P env records c w))),
   snd (applyFilters P env records c w)).
Proof.
  unfold buildResponse, bind, ret.
  now destruct (applyFilters P env records c w).
Qed.

Lemma applyFilters_same_ticks (env : Env) (records : list LocationRecord)
  (c : Filters.t) (w w' : World) :
  ticks w = ticks w' ->
  fst (applyFilters P env records c w) =
  fst (applyFilters P env records c w').
Proof.
  intros Hticks. apply applyFilters_same_readings.
  intros k. now rewrite Hticks.
Qed.

Lemma emit_then {A : Type} (e : Event) (m : IO A) (w : World) :
  (do! emit e in m) w = m (mkWorld (ticks w) (log w ++ [e])).
Proof. reflexivity. Qed.

(** The fallback branch, entered in a world [w0] that differs from [w] by
    the logged events [before]. *)
Lemma fallback_run (env : Env) (c : Filters.t) (w w0 : World)
  (before : list Event) :
  ticks w0 = ticks w -> log w0 = log w ++ before ->
  fst (fallbackResponse P mockLocations env c w0) =
  mkResponse 200
    (ResultsBody
       (fst (applyFilters P env (fallbackRecords mockLocations) c w))) /\
  In FallbackUsed
    (drop (length (log w))
       (log (snd (fallbackResponse P mockLocations env c w0)))).
Proof.
  intros Hticks Hlog. unfold fallbackResponse.
  rewrite emit_then, buildResponse_eq. simpl. split.
  - f_equal. f_equal. now apply applyFilters_same_ticks.
  - rewrite applyFilters_log. simpl.
    rewrite Hlog, <- app_assoc, drop_app_length.
    apply in_or_app. right. now left.
Qed.

Lemma GET_valid (env : Env) (searchParams : list (string * string))
  (lat lng : number) :
  parseNumber (searchParams_get searchParams "lat") = Some lat ->
  parseNumber (searchParams_get searchParams "lng") = Some lng ->
  GET P mockLocations env searchParams =
  match getSupabaseClient env with
  | Some supabase =>
      do! emit (RpcCalled (rpcArguments (filterOptions searchParams lat lng)))
      in
      match supabase (rpcArguments (filterOptions searchParams lat lng)) with
      | RpcResolved _ (Some _) =>
          do! emit (Warned "Supabase RPC nearby_locations error:") in
          fallbackResponse P mockLocations env
            (filterOptions searchParams lat lng)
      | RpcResolved (Some data) None =>
          buildResponse P env (map (toLocationRecord P) data)
            (filterOptions searchParams lat lng)
      | RpcResolved None None =>
          fallbackResponse P mockLocations env
            (filterOptions searchParams lat lng)
      | RpcThrew =>
          do! emit (Warned "Supabase RPC nearby_locations threw:") in
          fallbackResponse P mockLocations env
            (filterOptions searchParams lat lng)
      end
  | None =>
      fallbackResponse P mockLocations env
        (filterOptions searchParams lat lng)
  end.
Proof. unfold GET. now intros -> ->. Qed.

(** C1, amended. For a request with valid coordinates, when no client is
    configured, the call throws, the reply carries an error, or the reply
    carries neither rows nor an error, [GET] answers with status 200 and the
    result of filtering the bundled dataset, every record of which has its
    distance unset first; a reply whose rows are an empty list is answered
    as it is, with an empty result set, and the bundled dataset is not
    used; and whatever the store does, the answer is a result set with
    status 200, never an error. *)
Theorem GET_falls_back (env : Env) (searchParams : list (string * string))
  (w : World) (lat lng : number) :
  parseNumber (searchParams_get searchParams "lat") = Some lat ->
  parseNumber (searchParams_get searchParams "lng") = Some lng ->
  (storeFails env (rpcArguments (filterOptions searchParams lat lng)) ->
   In FallbackUsed (emitted (GET P mockLocations env searchParams) w) /\
   fst (GET P mockLocations env searchParams w) =
   mkResponse 200
     (ResultsBody
        (fst (applyFilters P env
                (map (fun record => Loc.with_meters record None)
                   mockLocations)
                (filterOptions searchParams lat lng) w)))) /\
  (length (map (fun record => Loc.with_meters record None) mockLocations)
   = length mockLocations /\
   forall i record,
     map (fun record => Loc.with_meters record None) mockLocations !! i
     = Some record ->
     Loc.meters record = None /\
     exists bundled,
       mockLocations !! i = Some bundled /\
       Loc.with_meters record (Loc.meters bundled) = bundled) /\
  (storeRepliesEmpty env (rpcArguments (filterOptions searchParams lat lng))
   ->
   fst (GET P mockLocations env searchParams w)
   = mkResponse 200 (ResultsBody []) /\
   ~ In FallbackUsed (emitted (GET P mockLocations env searchParams) w)) /\
  (status (fst (GET P mockLocations env searchParams w)) = 200 /\
   exists results,
     body (fst (GET P mockLocations env searchParams w))
     = ResultsBody results).
Proof.
  intros Hlat Hlng.
  pose proof (GET_valid env searchParams lat lng Hlat Hlng) as Hget.
  set (c := filterOptions searchParams lat lng) in *.
  assert (Hfb : forall w0 before,
             ticks w0 = ticks w -> log w0 = log w ++ before ->
             GET P mockLocations env searchParams w
             = fallbackResponse P mockLocations env c w0 ->
             answeredFromFallback P mockLocations env searchParams w).
  { intros w0 before Ht Hl Hrun.
    destruct (fallback_run env c w w0 before Ht Hl) as [Hr Hin].
    unfold answeredFromFallback, emitted. rewrite Hrun. split; [exact Hin|].
    exists lat, lng. now rewrite Hr. }
  assert (Hanswered :
            answeredFromFallback P mockLocations env searchParams w ->
            In FallbackUsed
              (emitted (GET P mockLocations env searchParams) w) /\
            fst (GET P mockLocations env searchParams w) =
            mkResponse 200
              (ResultsBody
                 (fst (applyFilters P env
                         (map (fun record => Loc.with_meters record None)
                            mockLocations) c w)))).
  { intros (Hin & lat' & lng' & Hlat' & Hlng' & Hr).
    split; [exact Hin|]. rewrite Hr. unfold c. congruence. }
  split; [|split; [|split]].
  - intros Hfail. apply Hanswered.
    destruct Hfail as [Hc|s Hc Hs|s d e Hc Hs|s Hc Hs];
      rewrite Hc in Hget; cbv beta iota in Hget.
    + apply (Hfb w []); [reflexivity | now rewrite app_nil_r |].
      now rewrite Hget.
    + apply (Hfb (mkWorld (ticks w)
                    (log w ++ [RpcCalled (rpcArguments c);
                               Warned "Supabase RPC nearby_locations threw:"]))
               [RpcCalled (rpcArguments c);
                Warned "Supabase RPC nearby_locations threw:"]);
        [reflexivity..|].
      rewrite Hget, emit_then, Hs, emit_then. simpl.
      now rewrite <- app_assoc.
    + apply (Hfb (mkWorld (ticks w)
                    (log w ++ [RpcCalled (rpcArguments c);
                               Warned "Supabase RPC nearby_locations error:"]))
               [RpcCalled (rpcArguments c);
                Warned "Supabase RPC nearby_locations error:"]);
        [reflexivity..|].
      rewrite Hget, emit_then, Hs.
      assert (Hany : forall data : option (list NearbyLocationRow),
                 match data with
                 | Some _ | None =>
                     do! emit (Warned "Supabase RPC nearby_locations error:")
                     in fallbackResponse P mockLocations env c
                 end
                 = (do! emit (Warned "Supabase RPC nearby_locations error:")
                    in fallbackResponse P mockLocations env c))
        by now intros [?|].
      cbv beta iota. rewrite ?Hany, emit_then. simpl.
      now rewrite <- app_assoc.
    + apply (Hfb (mkWorld (ticks w) (log w ++ [RpcCalled (rpcArguments c)]))
               [RpcCalled (rpcArguments c)]); [reflexivity..|].
      now rewrite Hget, emit_then, Hs.
  - split; [apply length_map|].
    intros i record Hi. rewrite list_lookup_fmap in Hi.
    destruct (mockLocations !! i) as [bundled|]; [|discriminate].
    injection Hi as <-. split; [reflexivity|].
    exists bundled. split; [reflexivity|]. now destruct bundled.
  - intros (supabase & Hc & Hs).
    assert (Hrun : GET P mockLocations env searchParams w
                   = buildResponse P env [] c
                       (mkWorld (ticks w)
                          (log w ++ [RpcCalled (rpcArguments c)]))).
    { now rewrite Hget, Hc, emit_then, Hs. }
    unfold emitted. rewrite Hrun, buildResponse_eq. simpl. split.
    + reflexivity.
    + rewrite ?applyFilters_log. simpl. rewrite drop_app_length.
      intros [H|[]]. discriminate H.
  - assert (Hok : forall w0,
               status (fst (fallbackResponse P mockLocations env c w0)) = 200
               /\ exists results,
                 body (fst (fallbackResponse P mockLocations env c w0))
                 = ResultsBody results).
    { intros w0. unfold fallbackResponse.
      rewrite emit_then, buildResponse_eq. simpl. eauto. }
    rewrite Hget. destruct (getSupabaseClient env) as [supabase|].
    + rewrite emit_then.
      destruct (supabase (rpcArguments c)) as [|[data|] [e|]];
        rewrite ?emit_then; try apply Hok.
      rewrite buildResponse_eq. simpl. eauto.
    + apply Hok.
Qed.

End Handler.

Lemma GET_rejects_unusable_coordinates_witness :
  fst (GET samplePlatform sampleMock (storeEnv RpcThrew)
         [("lng", "-79.3832"); ("lat", "north")] firstWorld)
  = missingCoordinates /\
  emitted (GET samplePlatform sampleMock (storeEnv RpcThrew)
             [("lng", "-79.3832"); ("lat", "north")]) firstWorld = [].
Proof.
  destruct (GET_rejects_unusable_coordinates samplePlatform sampleMock
              (storeEnv RpcThrew) [("lng", "-79.3832"); ("lat", "north")]
              firstWorld) as (Hresponse & _ & Hnone & _).
  - left. right. exists "north". split; reflexivity.
  - split; [exact Hresponse | exact Hnone].
Defined.

Lemma GET_falls_back_witness :
  answeredFromFallback samplePlatform sampleMock (storeEnv RpcThrew)
    torontoQuery firstWorld.
Proof.
  destruct (GET_falls_back samplePlatform sampleMock (storeEnv RpcThrew)
              torontoQuery firstWorld torontoLat torontoLng)
    as (Hfallback & _); [vm_compute; reflexivity..|].
  assert (Hfails : storeFails (storeEnv RpcThrew)
                     (rpcArguments
                        (filterOptions torontoQuery torontoLat torontoLng)))
    by (eapply CallThrew; reflexivity).
  destruct (Hfallback Hfails) as [Hin Hresponse].
  split; [exact Hin|].
  exists torontoLat, torontoLng.
  split; [vm_compute; reflexivity|]. split; [vm_compute; reflexivity|].
  exact Hresponse.
Defined.

(** C1, as stated, fails for an empty reply: rows that are an empty list
    are answered as they are, with an empty result set, and the bundled
    dataset is not used. *)
Lemma empty_reply_not_answered_from_fallback :
  storeRepliesEmpty (storeEnv (RpcResolved (Some []) None))
    (rpcArguments (filterOptions torontoQuery torontoLat torontoLng)) /\
  fst (GET samplePlatform sampleMock (storeEnv (RpcResolved (Some []) None))
         torontoQuery firstWorld)
  = mkResponse 200 (ResultsBody []) /\
  ~ answeredFromFallback samplePlatform sampleMock
      (storeEnv (RpcResolved (Some []) None)) torontoQuery firstWorld.
Proof.
  split; [|split].
  - eexists. split; reflexivity.
  - reflexivity.
  - intros [Hin _]. vm_compute in Hin.
    destruct Hin as [Hin|[]]. discriminate Hin.
Qed.

(** * Further properties *)

(** ** hours.ts *)

(** Case analysis on every comparison of rationals in sight. *)
Ltac compare_rationals :=
  repeat match goal with
    | |- context [(?x ?= ?y)%Q] => destruct (Qcompare_spec x y)
    | H : context [(?x ?= ?y)%Q] |- _ => destruct (Qcompare_spec x y)
    end.

Lemma intervalContains_same (a c : number) : intervalContains a a c = false.
Proof.
  unfold intervalContains, num_ge, num_le, num_lt.
  destruct a as [| | |p], c as [| | |q]; try reflexivity;
    compare_rationals; try reflexivity; exfalso; lra.
Qed.

(** X1. An interval whose two endpoints come to the same minute holds no
    minute at all, so that a day listed as 00:00 to 24:00, or as 09:00 to
    09:00, is closed at every time. *)
Theorem equal_endpoints_never_open (start end_ : string) :
  endpointMinutes start = endpointMinutes end_ ->
  neverMatches (start, end_) /\
  (forall (S : HoursSchedule) (T : Date),
      todaysHours S T = Some [(start, end_)] ->
      isOpenNow (Some S) T = false).
Proof.
  intros Heq.
  assert (Hnever : neverMatches (start, end_)).
  { intros current. unfold holds. simpl. fold (endpointMinutes start).
    fold (endpointMinutes end_). rewrite Heq. apply intervalContains_same. }
  split; [exact Hnever|].
  intros S T Hday. rewrite (isOpenNow_some S T _ Hday). simpl.
  now rewrite Hnever.
Qed.

Lemma equal_endpoints_never_open_witness :
  isOpenNow (Some {[ "mon" := [("00:00", "24:00")] ]}) (mkDate 1 12 0)
  = false.
Proof.
  destruct (equal_endpoints_never_open "00:00" "24:00" eq_refl) as [_ Hday].
  apply Hday. reflexivity.
Defined.

(** X2. Exchanging the endpoints of an interval gives its complement: for
    two different endpoints and any minute, the interval from [a] to [b]
    holds the minute exactly when the interval from [b] to [a] does not. *)
Theorem swapped_interval_is_complement (a b c : number) :
  num_lt a b = true \/ num_lt b a = true ->
  c <> NaN ->
  intervalContains a b c = negb (intervalContains b a c).
Proof.
  unfold intervalContains, num_ge, num_le, num_lt.
  destruct a as [| | |p], b as [| | |q], c as [| | |r];
    intros [H|H] Hc; try discriminate H; try (now elim Hc);
    try reflexivity;
    compare_rationals; try discriminate H; try reflexivity; exfalso; lra.
Qed.

Lemma swapped_interval_is_complement_witness :
  holds ("22:00", "02:00") (Int 90) = negb (holds ("02:00", "22:00") (Int 90)).
Proof.
  apply (swapped_interval_is_complement (Int 1320) (Int 120) (Int 90)).
  - right. reflexivity.
  - discriminate.
Defined.

Lemma split_append (sep : ascii) (a b : string) :
  noColon a = true -> sep = ":"%char ->
  split sep (a ++ String sep b)%string =
  a :: split sep b.
Proof.
  intros Ha ->. induction a as [|ch a IH]; simpl.
  - reflexivity.
  - simpl in Ha. apply andb_true_iff in Ha as [Hch Ha].
    apply negb_true_iff in Hch. rewrite Hch, (IH Ha). reflexivity.
Qed.

Lemma split_noColon (a : string) :
  noColon a = true -> split ":" a = [a].
Proof.
  induction a as [|ch a IH]; simpl; [reflexivity|].
  intros Ha. apply andb_true_iff in Ha as [Hch Ha].
  apply negb_true_iff in Hch. rewrite Hch, (IH Ha). reflexivity.
Qed.

(** X3. Only the first two components of a time string count: whatever
    follows a second colon, such as seconds, is ignored. *)
Theorem toMinutes_ignores_seconds (h m rest : string) :
  noColon h = true -> noColon m = true ->
  toMinutes (h ++ ":" ++ m ++ ":" ++ rest)%string =
  num_add (num_mul (parseInt h) (Int 60)) (parseInt m) /\
  toMinutes (h ++ ":" ++ m ++ ":" ++ rest)%string =
  toMinutes (h ++ ":" ++ m)%string.
Proof.
  intros Hh Hm.
  assert (Hlong : split ":" (h ++ ":" ++ m ++ ":" ++ rest)%string
                  = h :: m :: split ":" rest).
  { change (h ++ ":" ++ m ++ ":" ++ rest)%string
      with (h ++ String ":" (m ++ String ":" rest))%string.
    now rewrite !split_append. }
  assert (Hshort : split ":" (h ++ ":" ++ m)%string = [h; m]).
  { change (h ++ ":" ++ m)%string with (h ++ String ":" m)%string.
    rewrite split_append by easy. now rewrite split_noColon. }
  unfold toMinutes, hourStr, minuteStr. rewrite Hlong, Hshort.
  split; reflexivity.
Qed.

Lemma toMinutes_ignores_seconds_witness :
  toMinutes "09:30:45" = Int 570.
Proof.
  destruct (toMinutes_ignores_seconds "09" "30" "45" eq_refl eq_refl)
    as [-> _].
  reflexivity.
Defined.

(** ** geo.ts *)

Lemma Math_round_whole (a : number) :
  (exists z, Math_round a = Int z) \/ isFinite (Math_round a) = false.
Proof. destruct a; simpl; eauto. Qed.

(** X4. [attachDistance] changes nothing but the distance; the distance it
    sets is absent exactly when a coordinate of the record is absent, and
    otherwise is a whole number of meters or a value that is not finite,
    never a fraction. *)
Theorem attachDistance_sets_whole_meters (P : Platform)
  (record : LocationRecord) (originLat originLng : number) :
  Loc.with_meters (attachDistance P record originLat originLng)
    (Loc.meters record) = record /\
  (Loc.meters (attachDistance P record originLat originLng) = None <->
   Loc.latitude record = None \/ Loc.longitude record = None) /\
  (forall m,
      Loc.meters (attachDistance P record originLat originLng) = Some m ->
      (exists z, m = Int z) \/ isFinite m = false).
Proof.
  unfold attachDistance. destruct record. simpl.
  destruct latitude as [latitude|], longitude as [longitude|]; simpl;
    repeat split; try discriminate; auto;
    try (intros [H|H]; discriminate H).
  intros m [= <-]. apply Math_round_whole.
Qed.

Section Identity.
Context (P : Platform) (HP : ExactAtZero P).

Lemma num_eq_zero_Fin (x : number) :
  num_eq x (Int 0) -> exists q, x = Fin q /\ (q == 0)%Q.
Proof. destruct x as [| | |q]; simpl; try easy. eauto. Qed.

Lemma num_mul_zero_l (x y : number) :
  num_eq x (Int 0) -> isFinite y = true -> num_eq (num_mul x y) (Int 0).
Proof.
  intros Hx Hy. apply num_eq_zero_Fin in Hx as (q & -> & Hq).
  destruct y as [| | |r]; try discriminate. cbn [num_mul num_eq Int].
  rewrite round53_zero; [reflexivity|]. rewrite Hq. ring.
Qed.

Lemma num_mul_zero_r (x y : number) :
  isFinite x = true -> num_eq y (Int 0) -> num_eq (num_mul x y) (Int 0).
Proof.
  intros Hx Hy. apply num_eq_zero_Fin in Hy as (q & -> & Hq).
  destruct x as [| | |r]; try discriminate. cbn [num_mul num_eq Int].
  rewrite round53_zero; [reflexivity|]. rewrite Hq. ring.
Qed.

Lemma num_add_zero (x y : number) :
  num_eq x (Int 0) -> num_eq y (Int 0) -> num_eq (num_add x y) (Int 0).
Proof.
  intros Hx Hy. apply num_eq_zero_Fin in Hx as (p & -> & Hp).
  apply num_eq_zero_Fin in Hy as (q & -> & Hq). cbn [num_add num_eq Int].
  rewrite round53_zero; [reflexivity|]. rewrite Hp, Hq. ring.
Qed.

Lemma num_div_zero (x : number) (z : Z) :
  0 < z -> num_eq x (Int 0) -> num_eq (num_div x (Int z)) (Int 0).
Proof.
  intros Hz Hx. apply num_eq_zero_Fin in Hx as (q & -> & Hq).
  unfold num_div, Int, Qsign.
  assert (Hpos : (inject_Z z ?= 0)%Q = Gt).
  { apply Qgt_alt. change 0%Q with (inject_Z 0). rewrite <- Zlt_Qlt. lia. }
  rewrite Hpos. cbn [num_eq].
  rewrite round53_zero; [reflexivity|]. rewrite Hq.
  unfold Qdiv. ring.
Qed.

Lemma num_sub_self (q r : Q) :
  (q == r)%Q -> num_eq (num_sub (Fin q) (Fin r)) (Int 0).
Proof.
  intros Hqr. cbn [num_sub num_add num_neg num_eq Int].
  rewrite round53_zero; [reflexivity|]. rewrite Hqr. ring.
Qed.

Lemma num_eq_zero_finite (x : number) :
  num_eq x (Int 0) -> isFinite x = true.
Proof. intros H. now apply num_eq_zero_Fin in H as (q & -> & _). Qed.

Lemma toRadians_zero (x : number) :
  num_eq x (Int 0) ->
  num_eq (num_div (toRadians P x) (Int 2)) (Int 0).
Proof.
  intros Hx. unfold toRadians.
  apply num_div_zero; [lia|]. apply num_div_zero; [lia|].
  apply num_mul_zero_l; [exact Hx | apply (PI_finite P HP)].
Qed.

Lemma cos_toRadians_finite (q : Q) :
  isFinite (Math_cos P (toRadians P (Fin q))) = true.
Proof.
  unfold toRadians. pose proof (PI_finite P HP) as Hpi.
  destruct (Math_PI P) as [| | |pi]; try discriminate.
  cbn [num_mul]. unfold num_div, Int, Qsign.
  change (inject_Z 180 ?= 0)%Q with Gt. cbv beta iota.
  apply (cos_finite P HP).
Qed.

Lemma num_mul_finite (x y : number) :
  isFinite x = true -> isFinite y = true -> isFinite (num_mul x y) = true.
Proof. now destruct x, y. Qed.


End Identity.

(** ** route.ts: query parameters *)

Lemma lowerChar_idempotent (c : ascii) : lowerChar (lowerChar c) = lowerChar c.
Proof.
  destruct c as [[] [] [] [] [] [] [] []]; vm_compute; reflexivity.
Qed.

Lemma toLowerCase_idempotent (s : string) :
  toLowerCase (toLowerCase s) = toLowerCase s.
Proof.
  induction s as [|c s IH]; simpl; [reflexivity|].
  now rewrite lowerChar_idempotent, IH.
Qed.

Lemma parseNumber_not_NaN (value : option string) (n : number) :
  parseNumber value = Some n -> n <> NaN.
Proof.
  unfold parseNumber. destruct value as [s|]; [|discriminate].
  destruct (parseFloat s) eqn:Hp; simpl; intros [= <-]; discriminate.
Qed.

(** X6. The optional parameters of a request never make it fail and never
    bring in a NaN: the radius is a number other than NaN, 5 when
    [radius_km] is missing or does not parse; a boolean parameter is read
    without regard to case, the open-now filter is on exactly for
    true, 1, yes and y, and any other text leaves a tri-state filter
    absent. *)
Theorem optional_parameters_default (searchParams : list (string * string))
  (lat lng : number) :
  let c := filterOptions searchParams lat lng in
  Filters.radiusKm c <> NaN /\
  (unusable (searchParams_get searchParams "radius_km") ->
   Filters.radiusKm c = Int 5) /\
  (Filters.openNow c = true <->
   exists v, searchParams_get searchParams "open_now" = Some v /\
             In (toLowerCase v) ["true"; "1"; "yes"; "y"]) /\
  (forall v, parseBooleanParam (Some (toLowerCase v))
             = parseBooleanParam (Some v)) /\
  (forall v, ~ In (toLowerCase v)
               ["true"; "1"; "yes"; "y"; "false"; "0"; "no"; "n"] ->
             parseBooleanParam (Some v) = None) /\
  Filters.lat c = lat /\ Filters.lng c = lng.
Proof.
  assert (Hin : forall l s, includes l s = true <-> In s l).
  { intros l s. unfold includes. rewrite existsb_exists. split.
    - intros (x & Hx & Heq). apply String.eqb_eq in Heq. now subst.
    - intros Hs. exists s. split; [exact Hs | apply String.eqb_refl]. }
  intros c. subst c. unfold filterOptions.
  cbn [Filters.radiusKm Filters.openNow Filters.lat Filters.lng].
  split; [|split; [|split; [|split; [|split]]]].
  - destruct (parseNumber (searchParams_get searchParams "radius_km"))
      as [r|] eqn:Hr; cbn [nullish].
    + now apply parseNumber_not_NaN in Hr.
    + discriminate.
  - intros Hbad. apply parseNumber_None in Hbad. now rewrite Hbad.
  - unfold parseBooleanParam.
    destruct (searchParams_get searchParams "open_now") as [v|];
      cbn [nullish].
    + destruct (includes ["true"; "1"; "yes"; "y"] (toLowerCase v)) eqn:Ht.
      * split; [|reflexivity]. intros _. exists v. split; [reflexivity|].
        now apply Hin.
      * destruct (includes ["false"; "0"; "no"; "n"] (toLowerCase v));
          cbn [nullish]; (split; [discriminate|]);
          intros (v' & [= <-] & Hv); apply Hin in Hv; congruence.
    + split; [discriminate|]. now intros (v & Hv & _).
  - intros v. unfold parseBooleanParam. now rewrite toLowerCase_idempotent.
  - intros v Hv. unfold parseBooleanParam.
    destruct (includes ["true"; "1"; "yes"; "y"] (toLowerCase v)) eqn:Ht.
    + apply Hin in Ht. elim Hv. simpl in *. tauto.
    + destruct (includes ["false"; "0"; "no"; "n"] (toLowerCase v)) eqn:Hf;
        [|reflexivity].
      apply Hin in Hf. elim Hv. simpl in *. tauto.
  - split; reflexivity.
Qed.

Lemma optional_parameters_default_witness :
  Filters.radiusKm
    (filterOptions [("radius_km", "wide"); ("open_now", "YES")]
       torontoLat torontoLng) = Int 5 /\
  Filters.openNow
    (filterOptions [("radius_km", "wide"); ("open_now", "YES")]
       torontoLat torontoLng) = true.
Proof.
  destruct (optional_parameters_default
              [("radius_km", "wide"); ("open_now", "YES")]
              torontoLat torontoLng) as (_ & Hradius & Hopen & _).
  split.
  - apply Hradius. right. exists "wide". split; reflexivity.
  - apply Hopen. exists "YES". split; [reflexivity | right; right; now left].
Defined.

(** ** route.ts: the coordinate resolver *)

Section ResolverOrder.
Context (P : Platform).

(** X7. The shapes of a row are tried in a fixed order and the first match
    wins: a numeric [latitude]/[longitude] pair is returned whatever the
    other fields say; failing that, a numeric [lat]/[lng] pair, whatever
    the geometry; failing that, the first two elements of a geometry
    object's coordinates, swapped and as they are, any further element
    being ignored. *)
Theorem extractCoordinates_first_match (row : NearbyLocationRow) :
  (forall a b,
      Row.latitude row = Some a -> Row.longitude row = Some b ->
      extractCoordinates P row = (Some a, Some b)) /\
  (forall a b,
      Row.latitude row = None \/ Row.longitude row = None ->
      Row.lat row = Some a -> Row.lng row = Some b ->
      extractCoordinates P row = (Some a, Some b)) /\
  (forall lng lat rest,
      noNumericFields row ->
      Row.geom row = GeomObject (Some (ArrayOf (lng :: lat :: rest))) ->
      extractCoordinates P row = (lat, lng)) /\
  (forall text lng lat rest,
      noNumericFields row ->
      Row.geom row = GeomString text -> text <> EmptyString ->
      JSON_parse P text
      = Some (JsonWith (Some (ArrayOf (lng :: lat :: rest)))) ->
      extractCoordinates P row = (lat, lng)).
Proof.
  unfold extractCoordinates, noNumericFields.
  split; [|split; [|split]].
  - now intros a b -> ->.
  - intros a b Hone -> ->. destruct Hone as [->| ->]; [reflexivity|].
    now destruct (Row.latitude row).
  - intros lng lat rest [H1 H2] ->.
    destruct (Row.latitude row), (Row.longitude row), (Row.lat row),
      (Row.lng row); destruct H1, H2; try discriminate; reflexivity.
  - intros text lng lat rest [H1 H2] -> Hne Hparse.
    destruct text as [|ch text]; [easy|]. rewrite Hparse.
    destruct (Row.latitude row), (Row.longitude row), (Row.lat row),
      (Row.lng row); destruct H1, H2; try discriminate; reflexivity.
Qed.

(** X8. A row resolves to no coordinates exactly when neither pair of
    fields is numeric and its geometry yields no pair or a pair of absent
    elements: the geometry is falsy, not an object or a string, an object
    whose coordinates are missing, not an array or shorter than two, a
    text that does not parse, parses to [null], or parses to a value
    without such an array, or else the array starts with two elements
    that are both [null].  None of these is an error. *)
Theorem extractCoordinates_none_iff (row : NearbyLocationRow) :
  extractCoordinates P row = (None, None) <->
  noNumericFields row /\
  (unusableGeometry P (Row.geom row) \/
   geometryStartsWith P row None None).
Proof.
  split.
  - intros Hnone.
    assert (Hno : noNumericFields row).
    { unfold noNumericFields. revert Hnone. unfold extractCoordinates.
      destruct (Row.latitude row), (Row.longitude row);
        try discriminate;
        destruct (Row.lat row), (Row.lng row);
        try discriminate; auto. }
    split; [exact Hno|].
    destruct (extractCoordinates_geometry P row Hno)
      as (Hpair & _ & [(x & y & Hgeom)|Hbad]); [|now left].
    right. rewrite (Hpair x y Hgeom) in Hnone.
    injection Hnone as -> ->. exact Hgeom.
  - intros [Hno Hgeom].
    destruct (extractCoordinates_geometry P row Hno) as (Hpair & Hbad & _).
    destruct Hgeom as [Hgeom|Hgeom]; [now apply Hbad | now apply Hpair].
Qed.

End ResolverOrder.

Lemma extractCoordinates_first_match_witness :
  extractCoordinates samplePlatform
    (sampleRow (Some (Int 1)) (Some (Int 2)) (Some (Int 3)) (Some (Int 4))
       (GeomObject (Some (ArrayOf [Some (Int 5); Some (Int 6)]))))
  = (Some (Int 1), Some (Int 2)) /\
  extractCoordinates samplePlatform
    (sampleRow None None None None
       (GeomObject
          (Some (ArrayOf [Some (Int 5); Some (Int 6); Some (Int 7)]))))
  = (Some (Int 6), Some (Int 5)).
Proof.
  split.
  - destruct (extractCoordinates_first_match samplePlatform
                (sampleRow (Some (Int 1)) (Some (Int 2)) (Some (Int 3))
                   (Some (Int 4))
                   (GeomObject (Some (ArrayOf [Some (Int 5); Some (Int 6)])))))
      as (Hfields & _).
    now apply Hfields.
  - destruct (extractCoordinates_first_match samplePlatform
                (sampleRow None None None None
                   (GeomObject
                      (Some (ArrayOf [Some (Int 5); Some (Int 6);
                                      Some (Int 7)])))))
      as (_ & _ & Hobject & _).
    apply (Hobject (Some (Int 5)) (Some (Int 6)) [Some (Int 7)]);
      [|reflexivity].
    split; now left.
Defined.

(** ** route.ts: the filter-and-rank stage *)

Lemma staticChecks_passes (c : Filters.t) (r : LocationRecord) :
  staticChecks c r = true ->
  radiusExceeded (Filters.radiusKm c) r = false ->
  passesFilters c r.
Proof.
  unfold staticChecks, passesFilters. rewrite !andb_true_iff, !negb_true_iff.
  intros [[[Hcat Hacc] Hpets] Hgender] Hradius.
  split; [|split; [|split; [|split]]]; [| | | |exact Hradius].
  - intros cat Hc Hne. unfold categoryMismatch in Hcat. rewrite Hc in Hcat.
    destruct cat; [easy|]. cbn [truthy andb] in Hcat.
    apply negb_false_iff, String.eqb_eq in Hcat. exact Hcat.
  - intros b Hb. unfold flagMismatch in Hacc. rewrite Hb in Hacc.
    apply negb_false_iff in Hacc.
    destruct (Loc.accessible r) as [x|]; [|discriminate]. simpl in Hacc.
    apply Bool.eqb_prop in Hacc. now subst.
  - intros b Hb. unfold flagMismatch in Hpets. rewrite Hb in Hpets.
    apply negb_false_iff in Hpets.
    destruct (Loc.pets_allowed r) as [x|]; [|discriminate]. simpl in Hpets.
    apply Bool.eqb_prop in Hpets. now subst.
  - intros g Hg Hne. unfold genderMismatch in Hgender. rewrite Hg in Hgender.
    destruct (Loc.gender_restriction r) as [x|]; [|now left].
    destruct g; [easy|]. destruct x; [right; now left|].
    cbn [truthy andb] in Hgender.
    apply negb_false_iff, String.eqb_eq in Hgender. right. right.
    now rewrite Hgender.
Qed.

Section Ranking.
Context (P : Platform).

Lemma applyFilters_entries_kept (env : Env)
  (records : list LocationRecord) (c : Filters.t) (w : World) :
  Forall
    (fun r =>
       staticChecks c r = true /\
       radiusExceeded (Filters.radiusKm c) r = false /\
       (Filters.openNow c = true ->
        exists k, isOpenNow (Loc.hours r) (clock env k) = true))
    (fst (applyFilters P env records c w)).
Proof.
  rewrite applyFilters_eq. apply Forall_take, Array_sort_Forall.
  apply Array_filter_accepted. intros x w' Hkeep.
  rewrite keepRecord_eq in Hkeep.
  destruct (staticChecks c x) eqn:Hstatic; [|discriminate].
  split; [reflexivity|].
  destruct (Filters.openNow c); simpl in Hkeep.
  - apply andb_true_iff in Hkeep as [Hopen Hradius].
    apply negb_true_iff in Hradius. split; [exact Hradius|].
    intros _. now exists (ticks w').
  - apply negb_true_iff in Hkeep. split; [exact Hkeep | discriminate].
Qed.

(** With the open-now filter on, each record the [filter] step keeps was
    found open at a clock reading taken during that step. *)
Lemma Array_filter_read_during (env : Env) (c : Filters.t)
  (l : list LocationRecord) :
  Filters.openNow c = true ->
  forall w,
    (ticks w <= ticks (snd (Array_filter (keepRecord env c) l w)))%nat /\
    Forall
      (fun r =>
         exists k,
           (ticks w <= k
            < ticks (snd (Array_filter (keepRecord env c) l w)))%nat /\
           isOpenNow (Loc.hours r) (clock env k) = true)
      (fst (Array_filter (keepRecord env c) l w)).
Proof.
  intros Hon. induction l as [|x l IH]; intros w; simpl.
  - split; [lia | constructor].
  - unfold bind. rewrite keepRecord_eq, Hon.
    destruct (staticChecks c x).
    + destruct (IH (mkWorld (S (ticks w)) (log w))) as [Hle Hall].
      destruct (Array_filter (keepRecord env c) l
                  (mkWorld (S (ticks w)) (log w))) as [kept w2].
      simpl in *. split; [lia|].
      assert (Hrest :
                Forall
                  (fun r =>
                     exists k,
                       (ticks w <= k < ticks w2)%nat /\
                       isOpenNow (Loc.hours r) (clock env k) = true) kept).
      { eapply List.Forall_impl; [|exact Hall].
        intros r (k & Hk & Ho). exists k. split; [lia | exact Ho]. }
      destruct (isOpenNow (Loc.hours x) (clock env (ticks w))
                && negb (radiusExceeded (Filters.radiusKm c) x)) eqn:Hkeep;
        [|exact Hrest].
      constructor; [|exact Hrest].
      apply andb_true_iff in Hkeep as [Ho _].
      exists (ticks w). split; [lia | exact Ho].
    + destruct (IH w) as [Hle Hall].
      destruct (Array_filter (keepRecord env c) l w) as [kept w2].
      simpl in *. split; [lia | exact Hall].
Qed.

(** X9. Every entry of a result of [applyFilters] is one of the given
    records with its distance filled in, and passes every filter that is
    set: its category is the requested one, its accessible and pets flags
    equal the requested values (an unknown flag never does), its gender
    restriction is absent or the requested one, its distance does not
    exceed the radius, and, with the open-now filter on, it was open at a
    time read from the clock during the call: at one of the readings
    between the world the call starts in and the world it ends in. *)
Theorem applyFilters_entries_pass (env : Env)
  (records : list LocationRecord) (c : Filters.t) (w : World) :
  Forall
    (fun r =>
       In r (map (fillDistance P c) records) /\
       passesFilters c r /\
       (Filters.openNow c = true ->
        exists k,
          (ticks w <= k < ticks (snd (applyFilters P env records c w)))%nat /\
          isOpenNow (Loc.hours r) (clock env k) = true))
    (fst (applyFilters P env records c w)).
Proof.
  apply Forall_and. split; [apply applyFilters_from_input|].
  apply Forall_and. split.
  - eapply List.Forall_impl; [|apply applyFilters_entries_kept].
    intros r (Hstatic & Hradius & _). now apply staticChecks_passes.
  - destruct (Filters.openNow c) eqn:Hon.
    + rewrite applyFilters_snd, applyFilters_eq.
      apply Forall_take, Array_sort_Forall.
      eapply List.Forall_impl;
        [|apply (Array_filter_read_during env c _ Hon w)].
      intros r Hr _. exact Hr.
    + apply List.Forall_forall. intros r _ Hoff. discriminate Hoff.
Qed.

Lemma applyFilters_take (env : Env) (records : list LocationRecord)
  (c : Filters.t) (w : World) :
  fst (applyFilters P env records c w) =
  take 50 (Array_sort byDistance (keptRecords P env records c w)).
Proof. apply applyFilters_eq. Qed.

(** X10. Unless more than 50 records pass the filters, none is lost: the
    result is a rearrangement of the records the [filter] step kept, which
    with the open-now filter off are the filled-in records that pass the
    static checks and the radius rule. *)
Theorem applyFilters_loses_nothing (env : Env)
  (records : list LocationRecord) (c : Filters.t) (w : World) :
  (length (keptRecords P env records c w) <= 50)%nat ->
  Permutation (keptRecords P env records c w)
    (fst (applyFilters P env records c w)) /\
  (Filters.openNow c = false ->
   Permutation
     (List.filter
        (fun r => staticChecks c r
                  && negb (radiusExceeded (Filters.radiusKm c) r))
        (map (fillDistance P c) records))
     (fst (applyFilters P env records c w))).
Proof.
  intros Hlen. rewrite applyFilters_take.
  assert (Hall : take 50 (Array_sort byDistance
                            (keptRecords P env records c w))
                 = Array_sort byDistance (keptRecords P env records c w)).
  { apply take_ge. now rewrite Array_sort_length. }
  rewrite Hall. split.
  - apply Array_sort_Permutation.
  - intros Hoff. unfold keptRecords.
    rewrite Array_filter_no_clock by exact Hoff. simpl.
    apply Array_sort_Permutation.
Qed.

Lemma sorted_take_drop {A : Type} (R : A -> A -> Prop) (n : nat)
  (l : list A) (a b : A) :
  StronglySorted R l -> In a (take n l) -> In b (drop n l) -> R a b.
Proof.
  intros Hs Ha Hb.
  apply list_elem_of_In, list_elem_of_lookup_1 in Ha as [i Hi].
  apply list_elem_of_In, list_elem_of_lookup_1 in Hb as [j Hj].
  rewrite lookup_drop in Hj.
  apply lookup_take_Some in Hi as [Hi Hlt].
  apply (sorted_lookup R l Hs i (n + j)); [lia | assumption..].
Qed.

(** X11. When more records pass than are returned, the ones returned are
    the nearest: with no NaN distance among the candidates, the records
    kept by the [filter] step are the result followed by a remainder none
    of whose entries is nearer than an entry of the result. *)
Theorem applyFilters_keeps_nearest (env : Env)
  (records : list LocationRecord) (c : Filters.t) (w : World) :
  distancesComparable P c records ->
  exists rest,
    Permutation (keptRecords P env records c w)
      (fst (applyFilters P env records c w) ++ rest) /\
    forall a b,
      In a (fst (applyFilters P env records c w)) -> In b rest ->
      num_le (distanceOf a) (distanceOf b) = true.
Proof.
  intros Hcmp. rewrite applyFilters_take.
  exists (drop 50 (Array_sort byDistance (keptRecords P env records c w))).
  split.
  - rewrite take_drop. apply Array_sort_Permutation.
  - intros a b.
    apply (sorted_take_drop
             (fun x y => num_le (distanceOf x) (distanceOf y) = true)).
    apply (Array_sort_sorted byDistance _ (fun r => distanceOf r <> NaN)).
    + intros x y z. apply num_le_trans.
    + intros x y Hx Hy. now apply difference_not_positive.
    + intros x y _ _. apply difference_positive.
    + apply Array_filter_Forall. apply Forall_map. exact Hcmp.
Qed.

Lemma fillDistance_idempotent (c : Filters.t) (r : LocationRecord) :
  fillDistance P c (fillDistance P c r) = fillDistance P c r.
Proof.
  unfold fillDistance at 2. destruct (Loc.meters r) eqn:Hm.
  - unfold fillDistance. now rewrite Hm.
  - unfold attachDistance. destruct r. simpl in *. subst.
    now destruct latitude, longitude.
Qed.

Lemma not_after_when_le (a b : number) :
  num_le a b = true -> num_gt (num_sub a b) (Int 0) = false.
Proof.
  unfold num_gt, num_sub, num_lt, num_le, Int.
  destruct a as [| | |p], b as [| | |q]; simpl; try easy.
  pose proof (round53_positive (p + - q)) as Hsign.
  change (inject_Z 0) with 0%Q.
  destruct (Qcompare_spec 0 (round53 (p + - q))), (Qcompare_spec p q);
    try easy; intros _; exfalso;
    assert (0 < p + - q)%Q by (apply Hsign; lra); lra.
Qed.

Lemma Array_sort_of_sorted (l : list LocationRecord) :
  sortedByDistance l -> Array_sort byDistance l = l.
Proof.
  induction 1 as [|x l Hs IH Hx]; simpl; [reflexivity|].
  rewrite IH. destruct l as [|y l]; [reflexivity|]. simpl.
  inversion Hx as [|? ? Hxy _]; subst.
  unfold goesAfter, byDistance. now rewrite (not_after_when_le _ _ Hxy).
Qed.

(** X12. With the open-now filter off and no NaN distance among the
    candidates, filtering a result again with the same criteria gives the
    same result: [applyFilters] is idempotent. *)
Theorem applyFilters_idempotent (env env' : Env)
  (records : list LocationRecord) (c : Filters.t) (w w' : World) :
  Filters.openNow c = false ->
  distancesComparable P c records ->
  fst (applyFilters P env' (fst (applyFilters P env records c w)) c w') =
  fst (applyFilters P env records c w).
Proof.
  intros Hoff Hcmp.
  set (out := fst (applyFilters P env records c w)).
  pose proof (applyFilters_from_input P env records c w) as Hfrom.
  pose proof (applyFilters_entries_kept env records c w) as Hkept.
  pose proof (applyFilters_sorted P env records c w Hcmp) as Hsorted.
  assert (Hlen : (length out <= 50)%nat).
  { unfold out. rewrite applyFilters_eq, length_take. unfold MAX_RESULTS.
    lia. }
  fold out in Hfrom, Hkept, Hsorted.
  rewrite applyFilters_eq, Array_filter_no_clock by exact Hoff. simpl.
  assert (Hfill : map (fillDistance P c) out = out).
  { clear -Hfrom. induction Hfrom as [|x l Hx _ IH]; [reflexivity|].
    simpl. rewrite IH. f_equal.
    apply in_map_iff in Hx as (r & <- & _). apply fillDistance_idempotent. }
  rewrite Hfill.
  assert (Hkeep : List.filter
                    (fun r => staticChecks c r
                              && negb (radiusExceeded (Filters.radiusKm c) r))
                    out = out).
  { clear -Hkept. induction Hkept as [|x l (Hs & Hr & _) _ IH];
      [reflexivity|].
    simpl. now rewrite Hs, Hr, IH. }
  rewrite Hkeep, (Array_sort_of_sorted out Hsorted).
  apply take_ge. exact Hlen.
Qed.

End Ranking.

Lemma applyFilters_loses_nothing_witness :
  Permutation
    (keptRecords samplePlatform (fixedClock (mkDate 1 10 0)) sampleMock
       (noFilters (Int 5)) firstWorld)
    (fst (applyFilters samplePlatform (fixedClock (mkDate 1 10 0)) sampleMock
            (noFilters (Int 5)) firstWorld)).
Proof.
  destruct (applyFilters_loses_nothing samplePlatform
              (fixedClock (mkDate 1 10 0)) sampleMock (noFilters (Int 5))
              firstWorld) as [Hperm _].
  - vm_compute. lia.
  - exact Hperm.
Defined.

Lemma applyFilters_keeps_nearest_witness :
  exists rest,
    length rest = 10%nat /\
    Permutation
      (keptRecords samplePlatform (fixedClock (mkDate 1 10 0)) sixtyRecords
         (noFilters (Int 5)) firstWorld)
      (fst (applyFilters samplePlatform (fixedClock (mkDate 1 10 0))
              sixtyRecords (noFilters (Int 5)) firstWorld) ++ rest) /\
    forall a b,
      In a (fst (applyFilters samplePlatform (fixedClock (mkDate 1 10 0))
                   sixtyRecords (noFilters (Int 5)) firstWorld)) ->
      In b rest ->
      num_le (distanceOf a) (distanceOf b) = true.
Proof.
  destruct (applyFilters_keeps_nearest samplePlatform
              (fixedClock (mkDate 1 10 0)) sixtyRecords (noFilters (Int 5))
              firstWorld) as (rest & Hperm & Hnear).
  - unfold distancesComparable, sixtyRecords. apply Forall_map.
    apply List.Forall_forall. intros n _. discriminate.
  - exists rest. split; [|split; [exact Hperm | exact Hnear]].
    apply Permutation_length in Hperm. rewrite length_app in Hperm.
    assert (Hkept : length
                      (keptRecords samplePlatform
                         (fixedClock (mkDate 1 10 0)) sixtyRecords
                         (noFilters (Int 5)) firstWorld) = 60%nat)
      by (vm_compute; reflexivity).
    assert (Hout : length
                     (fst (applyFilters samplePlatform
                             (fixedClock (mkDate 1 10 0)) sixtyRecords
                             (noFilters (Int 5)) firstWorld)) = 50%nat)
      by (vm_compute; reflexivity).
    lia.
Defined.

Lemma applyFilters_idempotent_witness :
  fst (applyFilters samplePlatform (fixedClock (mkDate 1 18 0))
         (fst (applyFilters samplePlatform (fixedClock (mkDate 1 10 0))
                 sampleMock (noFilters (Int 5)) firstWorld))
         (noFilters (Int 5)) firstWorld) =
  fst (applyFilters samplePlatform (fixedClock (mkDate 1 10 0)) sampleMock
         (noFilters (Int 5)) firstWorld).
Proof.
  apply (applyFilters_idempotent samplePlatform).
  - reflexivity.
  - repeat constructor; discriminate.
Defined.

(** The rational platform is exact at zero. *)
Lemma num_eq_Fin (x : number) (z : Z) :
  num_eq x (Int z) -> exists q, x = Fin q /\ (q == inject_Z z)%Q.
Proof. destruct x as [| | |q]; simpl; try easy. eauto. Qed.

Lemma newtonSqrt_one (steps : nat) (q guess : Q) :
  (q == 1)%Q -> (guess == 1)%Q -> (newtonSqrt steps q guess == 1)%Q.
Proof.
  intros Hq. revert guess. induction steps as [|n IH]; intros guess Hg.
  - exact Hg.
  - simpl. apply IH. rewrite Qred_correct, Hg, Hq. reflexivity.
Qed.

Lemma samplePlatform_exact : ExactAtZero samplePlatform.
Proof.
  constructor.
  - reflexivity.
  - intros x Hx. apply num_eq_Fin in Hx as (q & -> & Hq).
    cbn [Math_sin samplePlatform onFinite num_eq Int].
    rewrite Qred_correct. unfold seriesSin. rewrite Hq. reflexivity.
  - reflexivity.
  - intros x Hx. apply num_eq_Fin in Hx as (q & -> & Hq).
    cbn [Math_sqrt samplePlatform sampleSqrt]. unfold Qsign.
    apply Qeq_alt in Hq. change (inject_Z 0) with 0%Q in Hq.
    rewrite Hq. reflexivity.
  - intros x Hx. apply num_eq_Fin in Hx as (q & -> & Hq).
    cbn [Math_sqrt samplePlatform sampleSqrt]. unfold Qsign.
    assert (Hpos : (q ?= 0)%Q = Gt) by (apply Qgt_alt; rewrite Hq; easy).
    rewrite Hpos. cbn [num_eq Int].
    apply (newtonSqrt_one 4 q); [exact Hq|].
    rewrite Qred_correct, Hq. reflexivity.
  - intros y x Hy Hx. apply num_eq_Fin in Hy as (p & -> & Hp).
    apply num_eq_Fin in Hx as (q & -> & Hq).
    cbn [Math_atan2 samplePlatform sampleAtan2]. unfold Qsign.
    assert (Hpos : (q ?= 0)%Q = Gt) by (apply Qgt_alt; rewrite Hq; easy).
    rewrite Hpos. cbn [num_eq Int]. rewrite Qred_correct.
    unfold seriesAtan. rewrite Hp, Hq. reflexivity.
Qed.


(** ** route.ts: the request handler *)

Lemma emitted_events {A : Type} (m : IO A) (w : World) (events : list Event) :
  log (snd (m w)) = log w ++ events -> emitted m w = events.
Proof. unfold emitted. intros ->. apply drop_app_length. Qed.

Section Requests.
Context (P : Platform) (mockLocations : list LocationRecord).

Lemma buildResponse_log (env : Env) (records : list LocationRecord)
  (c : Filters.t) (w : World) :
  log (snd (buildResponse P env records c w)) = log w.
Proof. rewrite buildResponse_eq. simpl. apply applyFilters_log. Qed.

Lemma fallbackResponse_log (env : Env) (c : Filters.t) (w : World) :
  log (snd (fallbackResponse P mockLocations env c w))
  = log w ++ [FallbackUsed].
Proof.
  unfold fallbackResponse. now rewrite emit_then, buildResponse_log.
Qed.

(** The events of a request with valid coordinates. *)
Lemma GET_trace (env : Env) (searchParams : list (string * string))
  (w : World) (lat lng : number) :
  parseNumber (searchParams_get searchParams "lat") = Some lat ->
  parseNumber (searchParams_get searchParams "lng") = Some lng ->
  emitted (GET P mockLocations env searchParams) w =
  expectedTrace env (rpcArguments (filterOptions searchParams lat lng)).
Proof.
  intros Hlat Hlng. apply emitted_events.
  rewrite (GET_valid P mockLocations env searchParams lat lng Hlat Hlng).
  unfold expectedTrace.
  destruct (getSupabaseClient env) as [supabase|].
  - rewrite emit_then.
    destruct (supabase (rpcArguments (filterOptions searchParams lat lng)))
      as [|[data|] [e|]]; rewrite ?emit_then;
      rewrite ?fallbackResponse_log, ?buildResponse_log; cbn [log];
      rewrite <- ?app_assoc; reflexivity.
  - apply fallbackResponse_log.
Qed.

Lemma GET_unusable_silent (env : Env)
  (searchParams : list (string * string)) (w : World) :
  parseNumber (searchParams_get searchParams "lat") = None \/
  parseNumber (searchParams_get searchParams "lng") = None ->
  emitted (GET P mockLocations env searchParams) w = [].
Proof.
  intros Hbad. apply emitted_nothing. unfold GET.
  destruct Hbad as [->| ->]; [reflexivity|].
  now destruct (parseNumber (searchParams_get searchParams "lat")).
Qed.


(** X14. A request calls the store at most once, with no retry after a
    failure: exactly once when its coordinates are valid and a client is
    configured, with the parsed filter options as arguments, and not at all
    otherwise. *)
Theorem GET_calls_store_at_most_once (env : Env)
  (searchParams : list (string * string)) (w : World) :
  (length (List.filter isRpcCalled
             (emitted (GET P mockLocations env searchParams) w)) <= 1)%nat /\
  (forall args,
      In (RpcCalled args) (emitted (GET P mockLocations env searchParams) w)
      <->
      getSupabaseClient env <> None /\
      exists lat lng,
        parseNumber (searchParams_get searchParams "lat") = Some lat /\
        parseNumber (searchParams_get searchParams "lng") = Some lng /\
        args = rpcArguments (filterOptions searchParams lat lng)).
Proof.
  destruct (parseNumber (searchParams_get searchParams "lat")) as [lat|]
    eqn:Hlat;
    [destruct (parseNumber (searchParams_get searchParams "lng")) as [lng|]
       eqn:Hlng|].
  - rewrite (GET_trace env searchParams w lat lng Hlat Hlng).
    unfold expectedTrace.
    destruct (getSupabaseClient env) as [supabase|].
    + split.
      * destruct (supabase _) as [|[data|] [e|]]; simpl; lia.
      * intros args. split.
        -- intros Hin. split; [discriminate|]. exists lat, lng.
           repeat split.
           destruct (supabase _) as [|[data|] [e|]]; simpl in Hin;
             repeat (destruct Hin as [Hin|Hin]; try discriminate Hin);
             try (now injection Hin); now elim Hin.
        -- intros (_ & lat' & lng' & [= <-] & [= <-] & ->). now left.
    + split; [simpl; lia|]. intros args. split.
      * intros [Hin|[]]. discriminate Hin.
      * now intros [Hne _].
  - assert (Hnone : emitted (GET P mockLocations env searchParams) w = []).
    { apply GET_unusable_silent. now right. }
    rewrite Hnone. split; [simpl; lia|]. intros args. split; [easy|].
    intros (_ & lat' & lng' & _ & Hl & _). discriminate Hl.
  - assert (Hnone : emitted (GET P mockLocations env searchParams) w = []).
    { apply GET_unusable_silent. now left. }
    rewrite Hnone. split; [simpl; lia|]. intros args. split; [easy|].
    intros (_ & lat' & lng' & Hl & _). discriminate Hl.
Qed.

Lemma storeFails_cases (env : Env) (args : Rpc.t) :
  storeFails env args <->
  match getSupabaseClient env with
  | None => True
  | Some supabase =>
      match supabase args with
      | RpcResolved (Some _) None => False
      | _ => True
      end
  end.
Proof.
  split.
  - intros [Hc|s Hc Hs|s d e Hc Hs|s Hc Hs]; rewrite Hc; try rewrite Hs;
      try exact I. now destruct d.
  - destruct (getSupabaseClient env) as [supabase|] eqn:Hc;
      [|intros _; now apply NoClient].
    destruct (supabase args) as [|[data|] [e|]] eqn:Hs; intros H;
      try (now elim H).
    + now apply (CallThrew env args supabase).
    + now apply (ErrorPayload env args supabase (Some data) e).
    + now apply (ErrorPayload env args supabase None e).
    + now apply (NoData env args supabase).
Qed.


Lemma applyFilters_at_most_50 (env : Env) (records : list LocationRecord)
  (c : Filters.t) (w : World) :
  (length (fst (applyFilters P env records c w)) <= 50)%nat.
Proof. rewrite applyFilters_eq, length_take. unfold MAX_RESULTS. lia. Qed.

Lemma GET_answer (env : Env)
  (searchParams : list (string * string)) (w : World) (lat lng : number) :
  parseNumber (searchParams_get searchParams "lat") = Some lat ->
  parseNumber (searchParams_get searchParams "lng") = Some lng ->
  exists results,
    fst (GET P mockLocations env searchParams w)
    = mkResponse 200 (ResultsBody results) /\
    (length results <= 50)%nat /\
    Forall (passesFilters (filterOptions searchParams lat lng)) results.
Proof.
  intros Hlat Hlng.
  set (c := filterOptions searchParams lat lng).
  assert (Hbuilt : forall records w0,
             exists results,
               fst (buildResponse P env records c w0)
               = mkResponse 200 (ResultsBody results) /\
               (length results <= 50)%nat /\
               Forall (passesFilters c) results).
  { intros records w0. rewrite buildResponse_eq.
    exists (fst (applyFilters P env records c w0)).
    split; [reflexivity|]. split; [apply applyFilters_at_most_50|].
    eapply List.Forall_impl; [|apply (applyFilters_entries_kept P)].
    intros r (Hstatic & Hradius & _). now apply staticChecks_passes. }
  rewrite (GET_valid P mockLocations env searchParams lat lng Hlat Hlng).
  fold c. unfold fallbackResponse.
  destruct (getSupabaseClient env) as [supabase|].
  - rewrite emit_then.
    destruct (supabase (rpcArguments c)) as [|[data|] [e|]];
      rewrite ?emit_then; apply Hbuilt.
  - rewrite emit_then. apply Hbuilt.
Qed.

(** X16. Whatever the store does, the answer to a request with valid
    coordinates lists at most 50 records, each of which passes the filters
    of the request: none lies beyond the requested radius, 5 km when none
    is given. *)
Theorem GET_results_bounded (env : Env)
  (searchParams : list (string * string)) (w : World) (lat lng : number) :
  parseNumber (searchParams_get searchParams "lat") = Some lat ->
  parseNumber (searchParams_get searchParams "lng") = Some lng ->
  exists results,
    fst (GET P mockLocations env searchParams w)
    = mkResponse 200 (ResultsBody results) /\
    (length results <= 50)%nat /\
    Forall (passesFilters (filterOptions searchParams lat lng)) results /\
    (unusable (searchParams_get searchParams "radius_km") ->
     Forall (fun r => radiusExceeded (Int 5) r = false) results).
Proof.
  intros Hlat Hlng.
  destruct (GET_answer env searchParams w lat lng Hlat Hlng)
    as (results & Hget & Hlen & Hpass).
  exists results. repeat split; try assumption.
  intros Hbad. apply parseNumber_None in Hbad.
  eapply List.Forall_impl; [|exact Hpass].
  intros r (_ & _ & _ & _ & Hradius).
  unfold filterOptions in Hradius. cbn [Filters.radiusKm] in Hradius.
  now rewrite Hbad in Hradius.
Qed.

End Requests.



Lemma GET_results_bounded_witness :
  exists results,
    fst (GET samplePlatform sampleMock (storeEnv RpcThrew) torontoQuery
           firstWorld)
    = mkResponse 200 (ResultsBody results) /\
    (length results <= 50)%nat.
Proof.
  destruct (GET_results_bounded samplePlatform sampleMock (storeEnv RpcThrew)
              torontoQuery firstWorld torontoLat torontoLng)
    as (results & Hget & Hlen & _); [vm_compute; reflexivity..|].
  exists results. now split.
Defined.

(** ** page.tsx *)

Lemma get_removeAll (params : list (string * string)) (name other : string) :
  name <> other ->
  searchParams_get (removeAll name params) other
  = searchParams_get params other.
Proof.
  intros Hne. induction params as [|[k v] rest IH]; simpl; [reflexivity|].
  destruct (String.eqb_spec k name) as [->|Hk]; simpl.
  - destruct (String.eqb_spec name other); [contradiction | exact IH].
  - now rewrite IH.
Qed.

Lemma get_set_same (params : list (string * string)) (name value : string) :
  searchParams_get (URLSearchParams_set params name value) name = Some value.
Proof.
  induction params as [|[k v] rest IH]; simpl.
  - now rewrite String.eqb_refl.
  - destruct (String.eqb_spec k name) as [->|Hk]; simpl.
    + now rewrite String.eqb_refl.
    + destruct (String.eqb_spec k name); [contradiction | exact IH].
Qed.

Lemma get_set_other (params : list (string * string))
  (name value other : string) :
  name <> other ->
  searchParams_get (URLSearchParams_set params name value) other
  = searchParams_get params other.
Proof.
  intros Hne. induction params as [|[k v] rest IH]; simpl.
  - destruct (String.eqb_spec name other); [contradiction | reflexivity].
  - destruct (String.eqb_spec k name) as [->|Hk]; simpl.
    + destruct (String.eqb_spec name other); [contradiction|].
      now apply get_removeAll.
    + now rewrite IH.
Qed.

Lemma parseBooleanParam_String (b : bool) :
  parseBooleanParam (Some (String_of_bool b)) = Some b.
Proof. now destruct b. Qed.

Section PageRequests.
Context (Number_toString : number -> string).

Ltac read_params :=
  unfold createQueryString;
  repeat match goal with
    | |- context [if ?b then _ else _] => destruct b eqn:?
    | |- context [match ?o with Some _ => _ | None => _ end] =>
        destruct o eqn:?
    end;
  rewrite ?get_set_other by discriminate;
  rewrite ?get_set_same;
  try reflexivity.

Lemma createQueryString_numbers (coords : Coordinates.t)
  (filters : FilterState.t) :
  let q := createQueryString Number_toString coords filters in
  searchParams_get q "lat"
  = Some (Number_toString (Coordinates.lat coords)) /\
  searchParams_get q "lng"
  = Some (Number_toString (Coordinates.lng coords)) /\
  searchParams_get q "radius_km"
  = Some (Number_toString (FilterState.radiusKm filters)).
Proof.
  destruct filters as [category radiusKm openNow accessible pets gender].
  cbn [FilterState.category FilterState.radiusKm FilterState.openNow
       FilterState.accessible FilterState.pets FilterState.gender].
  repeat split; read_params.
Qed.

Lemma createQueryString_options (coords : Coordinates.t)
  (filters : FilterState.t) :
  let q := createQueryString Number_toString coords filters in
  searchParams_get q "category"
  = (if String.eqb (FilterState.category filters) "all" then None
     else Some (FilterState.category filters)) /\
  parseBooleanParam (searchParams_get q "open_now") ?? false
  = FilterState.openNow filters /\
  parseBooleanParam (searchParams_get q "accessible")
  = FilterState.accessible filters /\
  parseBooleanParam (searchParams_get q "pets") = FilterState.pets filters /\
  searchParams_get q "gender"
  = (if String.eqb (FilterState.gender filters) "all" then None
     else Some (FilterState.gender filters)).
Proof.
  destruct filters as [category radiusKm openNow accessible pets gender].
  cbn [FilterState.category FilterState.radiusKm FilterState.openNow
       FilterState.accessible FilterState.pets FilterState.gender].
  destruct (String.eqb category "all") eqn:Hcat,
    (String.eqb gender "all") eqn:Hgen, openNow, accessible as [a|],
    pets as [p|];
    unfold createQueryString;
    cbn [FilterState.category FilterState.radiusKm FilterState.openNow
         FilterState.accessible FilterState.pets FilterState.gender];
    rewrite ?Hcat, ?Hgen; cbn [negb];
    repeat split;
    rewrite ?get_set_other by discriminate;
    rewrite ?get_set_same, ?parseBooleanParam_String;
    reflexivity.
Qed.

(** X17. The handler recovers the filters the page asks for: built with
    [createQueryString], a request carries the coordinates and the radius
    as printed, the category and the gender unless they are "all", the
    open-now flag and both tri-state flags; when the printed radius parses
    back to itself, the options [GET] filters with are exactly the page's
    filters. *)
Theorem createQueryString_round_trip (coords : Coordinates.t)
  (filters : FilterState.t) (lat lng : number) :
  let q := createQueryString Number_toString coords filters in
  searchParams_get q "lat"
  = Some (Number_toString (Coordinates.lat coords)) /\
  searchParams_get q "lng"
  = Some (Number_toString (Coordinates.lng coords)) /\
  Filters.category (filterOptions q lat lng)
  = Filters.category (requestedFilters filters lat lng) /\
  Filters.openNow (filterOptions q lat lng) = FilterState.openNow filters /\
  Filters.accessible (filterOptions q lat lng)
  = FilterState.accessible filters /\
  Filters.pets (filterOptions q lat lng) = FilterState.pets filters /\
  Filters.gender (filterOptions q lat lng)
  = Filters.gender (requestedFilters filters lat lng) /\
  (parseNumber (Some (Number_toString (FilterState.radiusKm filters)))
   = Some (FilterState.radiusKm filters) ->
   filterOptions q lat lng = requestedFilters filters lat lng).
Proof.
  intros q.
  destruct (createQueryString_numbers coords filters)
    as (Hlat & Hlng & Hradius).
  destruct (createQueryString_options coords filters)
    as (Hcat & Hopen & Hacc & Hpets & Hgender).
  fold q in Hlat, Hlng, Hradius, Hcat, Hopen, Hacc, Hpets, Hgender.
  unfold filterOptions, requestedFilters.
  cbn [Filters.category Filters.openNow Filters.accessible Filters.pets
       Filters.gender].
  repeat split; try assumption.
  intros Hparse. rewrite Hcat, Hopen, Hacc, Hpets, Hgender, Hradius, Hparse.
  reflexivity.
Qed.

End PageRequests.

Lemma createQueryString_round_trip_witness :
  filterOptions (createQueryString sampleToString sampleCoords sampleFilters)
    (Int 44) (Int (-79))
  = requestedFilters sampleFilters (Int 44) (Int (-79)).
Proof.
  apply (createQueryString_round_trip sampleToString sampleCoords
           sampleFilters (Int 44) (Int (-79))).
  reflexivity.
Defined.

Section PageFetch.
Context (Number_toString : number -> string).
Context (P : Platform) (mockLocations : list LocationRecord).

(** X18. Fetching from this handler, the page either gets a result set of
    at most 50 records or throws the handler's own message: the coordinates
    as printed decide which, and the generic failure text is never the
    outcome. *)
Theorem fetchLocations_outcome (env : Env) (coords : Coordinates.t)
  (filters : FilterState.t) (w : World) :
  let outcome :=
    fst (fetchLocations Number_toString (GET P mockLocations env) coords
           filters w) in
  (unusable (Some (Number_toString (Coordinates.lat coords))) \/
   unusable (Some (Number_toString (Coordinates.lng coords))) ->
   outcome = inl "Query parameters 'lat' and 'lng' are required.") /\
  (forall lat lng,
      parseNumber (Some (Number_toString (Coordinates.lat coords)))
      = Some lat ->
      parseNumber (Some (Number_toString (Coordinates.lng coords)))
      = Some lng ->
      exists results,
        outcome = inr (ResultsBody results) /\
        (length results <= 50)%nat) /\
  outcome <> inl "Failed to load nearby services.".
Proof.
  intros outcome.
  destruct (createQueryString_numbers Number_toString coords filters)
    as (Hlat & Hlng & _).
  set (q := createQueryString Number_toString coords filters) in *.
  assert (Hbad :
            unusable (Some (Number_toString (Coordinates.lat coords))) \/
            unusable (Some (Number_toString (Coordinates.lng coords))) ->
            outcome = inl "Query parameters 'lat' and 'lng' are required.").
  { intros Hun. unfold outcome, fetchLocations, bind. fold q.
    assert (Hget : GET P mockLocations env q w = (missingCoordinates, w)).
    { unfold GET. rewrite Hlat, Hlng.
      destruct Hun as [H|H]; apply parseNumber_None in H; rewrite H;
        [reflexivity|].
      now destruct (parseNumber
                      (Some (Number_toString (Coordinates.lat coords)))). }
    now rewrite Hget. }
  assert (Hgood :
            forall lat lng,
              parseNumber (Some (Number_toString (Coordinates.lat coords)))
              = Some lat ->
              parseNumber (Some (Number_toString (Coordinates.lng coords)))
              = Some lng ->
              exists results,
                outcome = inr (ResultsBody results) /\
                (length results <= 50)%nat).
  { intros lat lng Hplat Hplng.
    destruct (GET_answer P mockLocations env q w lat lng)
      as (results & Hget & Hlen & _); [now rewrite Hlat | now rewrite Hlng |].
    exists results. split; [|exact Hlen].
    unfold outcome, fetchLocations, bind. fold q.
    destruct (GET P mockLocations env q w) as [response w1].
    simpl in Hget. now subst response. }
  split; [exact Hbad|]. split; [exact Hgood|].
  destruct (parseNumber (Some (Number_toString (Coordinates.lat coords))))
    as [lat|] eqn:Hplat;
    [destruct (parseNumber (Some (Number_toString (Coordinates.lng coords))))
       as [lng|] eqn:Hplng|].
  - destruct (Hgood lat lng eq_refl eq_refl) as (results & -> & _).
    discriminate.
  - rewrite Hbad; [discriminate|]. right. now apply parseNumber_None.
  - rewrite Hbad; [discriminate|]. left. now apply parseNumber_None.
Qed.

End PageFetch.

Lemma fetchLocations_outcome_witness :
  fst (fetchLocations sampleToString
         (GET samplePlatform sampleMock (storeEnv RpcThrew))
         (Coordinates.mk NaN (Int (-79))) sampleFilters firstWorld)
  = inl "Query parameters 'lat' and 'lng' are required.".
Proof.
  destruct (fetchLocations_outcome sampleToString samplePlatform sampleMock
              (storeEnv RpcThrew) (Coordinates.mk NaN (Int (-79)))
              sampleFilters firstWorld) as (Hbad & _).
  apply Hbad. left. right. exists "NaN". split; reflexivity.
Defined.

Lemma openCount_eq (env : Env) (d : Date) (results : list LocationRecord) :
  (forall k, clock env k = d) ->
  forall w,
    fst (Array_filter
           (fun location => isOpenNowDefault env (Loc.hours location))
           results w)
    = List.filter (fun r => isOpenNow (Loc.hours r) d) results.
Proof.
  intros Hclock. induction results as [|x l IH]; intros w; [reflexivity|].
  simpl. unfold bind at 1. unfold isOpenNowDefault at 1.
  unfold bind at 1, newDate, ret at 1. rewrite Hclock.
  unfold bind. specialize (IH (mkWorld (S (ticks w)) (log w))).
  destruct (Array_filter _ l _) as [kept w1]. simpl in *. subst kept.
  now destruct (isOpenNow (Loc.hours x) d).
Qed.

Lemma filter_all {A : Type} (p : A -> bool) (l : list A) :
  Forall (fun x => p x = true) l -> List.filter p l = l.
Proof.
  induction 1 as [|x l Hx _ IH]; [reflexivity|].
  simpl. now rewrite Hx, IH.
Qed.

(** X19. The count of open services shown by the page never exceeds the
    number of listed records; read at the time [d], it is the number of
    records open at [d]; and for a list that [applyFilters] produced at
    that same time with the open-now filter on, it is the whole list. *)
Theorem openCount_of_results (env : Env) (results : list LocationRecord)
  (w : World) :
  (fst (openCount env results w) <= length results)%nat /\
  (forall d,
      (forall k, clock env k = d) ->
      fst (openCount env results w)
      = length (List.filter (fun r => isOpenNow (Loc.hours r) d) results) /\
      (forall P env' records c w',
          (forall k, clock env' k = d) ->
          Filters.openNow c = true ->
          results = fst (applyFilters P env' records c w') ->
          fst (openCount env results w) = length results)).
Proof.
  assert (Hcount : fst (openCount env results w)
                   = length (fst (Array_filter
                                    (fun location =>
                                       isOpenNowDefault env
                                         (Loc.hours location)) results w))).
  { unfold openCount, bind, ret. now destruct (Array_filter _ _ w). }
  split.
  - rewrite Hcount. apply Array_filter_length.
  - intros d Hclock. rewrite Hcount, (openCount_eq env d results Hclock).
    split; [reflexivity|].
    intros P env' records c w' Hclock' Hon Hres. f_equal.
    apply filter_all. rewrite Hres.
    eapply List.Forall_impl;
      [|apply (applyFilters_entries_kept P env' records c w')].
    intros r (_ & _ & Hopen). destruct (Hopen Hon) as [k Hk].
    now rewrite Hclock' in Hk.
Qed.

Lemma openCount_of_results_witness :
  fst (openCount (fixedClock (mkDate 1 10 0))
         (fst (applyFilters samplePlatform (fixedClock (mkDate 1 10 0))
                 [officeRecord] openFilter firstWorld)) firstWorld)
  = 1%nat.
Proof.
  destruct (openCount_of_results (fixedClock (mkDate 1 10 0))
              (fst (applyFilters samplePlatform (fixedClock (mkDate 1 10 0))
                      [officeRecord] openFilter firstWorld)) firstWorld)
    as [_ Hat].
  destruct (Hat (mkDate 1 10 0) (fun _ => eq_refl)) as [_ Hall].
  rewrite (Hall samplePlatform (fixedClock (mkDate 1 10 0)) [officeRecord]
             openFilter firstWorld (fun _ => eq_refl) eq_refl eq_refl).
  reflexivity.
Defined.

(** X20. After the selection effect has run, nothing is selected exactly
    when the list is empty, and otherwise the selected id is the id of a
    listed record: a selection that is listed is kept; any other, be it
    [null], empty or the id of no listed record, is replaced by the id of
    the first record; running the effect again changes nothing. *)
Theorem reselect_keeps_selection_listed (results : list LocationRecord)
  (selectedId : option string) :
  (reselect results selectedId = None <-> results = []) /\
  (forall id, reselect results selectedId = Some id ->
              In id (map Loc.id results)) /\
  (forall id, selectedId = Some id -> id <> EmptyString ->
              In id (map Loc.id results) ->
              reselect results selectedId = selectedId) /\
  (forall first rest,
      results = first :: rest ->
      selectedId = None \/ selectedId = Some EmptyString \/
      (exists id, selectedId = Some id /\ ~ In id (map Loc.id results)) ->
      reselect results selectedId = Some (Loc.id first)) /\
  reselect results (reselect results selectedId)
  = reselect results selectedId.
Proof.
  assert (Hsome : forall id l,
             existsb (fun location => String.eqb (Loc.id location) id) l
             = true <-> In id (map Loc.id l)).
  { intros id l. rewrite existsb_exists, in_map_iff. split.
    - intros (x & Hx & Heq). apply String.eqb_eq in Heq. eauto.
    - intros (x & Heq & Hx). exists x. split; [exact Hx|].
      now apply String.eqb_eq. }
  destruct results as [|first rest].
  - repeat split; try discriminate; try reflexivity. now intros id _ _ [].
  - set (results := first :: rest).
    assert (Hfirst : In (Loc.id first) (map Loc.id results)) by now left.
    assert (Hrun : forall sel,
               reselect results sel = Some (Loc.id first) \/
               exists id, sel = Some id /\ id <> EmptyString /\
                          In id (map Loc.id results) /\
                          reselect results sel = Some id).
    { intros sel. unfold reselect, results. fold results.
      destruct sel as [[|ch id]|]; [now left| |now left].
      cbn [truthy negb orb].
      destruct (existsb _ results) eqn:Hex; [|now left].
      right. exists (String ch id). repeat split; [discriminate|].
      now apply Hsome. }
    assert (Hkeep : forall id, id <> EmptyString ->
                               In id (map Loc.id results) ->
                               reselect results (Some id) = Some id).
    { intros id Hne Hin. unfold reselect, results. fold results.
      destruct id as [|ch id]; [easy|]. cbn [truthy negb orb].
      apply Hsome in Hin. now rewrite Hin. }
    split; [|split; [|split; [|split]]].
    + split; [|discriminate].
      destruct (Hrun selectedId) as [H|(id & _ & _ & _ & H)];
        rewrite H; discriminate.
    + intros id Hid.
      destruct (Hrun selectedId) as [H|(id' & _ & _ & Hin & H)];
        rewrite H in Hid; injection Hid as <-; assumption.
    + intros id -> Hne Hin. now apply Hkeep.
    + intros first' rest' [= <- <-] Hother.
      destruct (Hrun selectedId) as [H|(id & Hsel & Hne & Hin & H)];
        [exact H|].
      destruct Hother as [Hnone|[Hempty|(id' & Hsel' & Hnot)]]; congruence.
    + destruct (Hrun selectedId) as [H|(id & _ & Hne & Hin & H)]; rewrite H.
      * destruct (Hrun (Some (Loc.id first)))
          as [H'|(id & [= <-] & _ & _ & H')]; exact H'.
      * now apply Hkeep.
Qed.

Lemma reselect_keeps_selection_listed_witness :
  reselect sampleMock (Some "mock-food") = Some "mock-food" /\
  reselect sampleMock (Some "gone") = Some "mock-shelter".
Proof.
  split.
  - destruct (reselect_keeps_selection_listed sampleMock (Some "mock-food"))
      as (_ & _ & Hkeep & _).
    apply (Hkeep "mock-food"); [reflexivity | discriminate |].
    right. now left.
  - destruct (reselect_keeps_selection_listed sampleMock (Some "gone"))
      as (_ & _ & _ & Hfirst & _).
    apply (Hfirst _ _ eq_refl). right. right. exists "gone".
    split; [reflexivity|]. intros [H|[H|[]]]; discriminate H.
Defined.

(** ** map-view.tsx *)

Lemma placeMarker_lookup (selectedId : option string)
  (markers : gmap string MarkerEntry) (r : LocationRecord) (id : string) :
  placeMarker selectedId markers r !! id =
  if located r && String.eqb (Loc.id r) id then
    match Loc.latitude r, Loc.longitude r with
    | Some latitude, Some longitude =>
        Some (mkMarker (longitude, latitude) (Loc.name r)
                (markerClassNames (isSelectedId (Loc.id r) selectedId)))
    | _, _ => None
    end
  else markers !! id.
Proof.
  unfold placeMarker, located.
  destruct (Loc.latitude r), (Loc.longitude r); try reflexivity. simpl.
  destruct (String.eqb_spec (Loc.id r) id) as [->|Hne].
  - apply lookup_insert_eq.
  - now apply lookup_insert_ne.
Qed.

Lemma placeMarkers_from (selectedId : option string)
  (locations : list LocationRecord) :
  forall (markers : gmap string MarkerEntry) (id : string) (m : MarkerEntry),
    foldl (placeMarker selectedId) markers locations !! id = Some m ->
    markers !! id = Some m \/
    exists r latitude longitude,
      In r locations /\ Loc.id r = id /\
      Loc.latitude r = Some latitude /\ Loc.longitude r = Some longitude /\
      m = mkMarker (longitude, latitude) (Loc.name r)
            (markerClassNames (isSelectedId id selectedId)).
Proof.
  induction locations as [|x l IH]; intros markers id m Hm; [now left|].
  simpl in Hm. apply IH in Hm as [Hm|(r & la & lo & Hin & Hrest)].
  - rewrite placeMarker_lookup in Hm.
    destruct (located x && String.eqb (Loc.id x) id) eqn:Hx; [|now left].
    apply andb_true_iff in Hx as [_ Hid]. apply String.eqb_eq in Hid.
    right. destruct (Loc.latitude x) as [la|] eqn:Hla; [|discriminate].
    destruct (Loc.longitude x) as [lo|] eqn:Hlo; [|discriminate].
    exists x, la, lo. injection Hm as <-. subst id.
    repeat split; auto. now left.
  - right. exists r, la, lo. split; [now right | exact Hrest].
Qed.

Lemma placeMarkers_covers (selectedId : option string)
  (locations : list LocationRecord) :
  forall (markers : gmap string MarkerEntry) (id : string),
    is_Some (markers !! id) \/
    (exists r, In r locations /\ Loc.id r = id /\ located r = true) ->
    is_Some (foldl (placeMarker selectedId) markers locations !! id).
Proof.
  induction locations as [|x l IH]; intros markers id H; simpl.
  - destruct H as [H|(r & [] & _)]. exact H.
  - apply IH. destruct H as [H|(r & [<-|Hin] & Hid & Hloc)].
    + left. rewrite placeMarker_lookup.
      destruct (located x && String.eqb (Loc.id x) id) eqn:Hx; [|exact H].
      apply andb_true_iff in Hx as [Hloc _]. unfold located in Hloc.
      destruct (Loc.latitude x), (Loc.longitude x); try discriminate.
      eauto.
    + left. rewrite placeMarker_lookup, Hloc, Hid, String.eqb_refl. simpl.
      unfold located in Hloc.
      destruct (Loc.latitude x), (Loc.longitude x); try discriminate.
      eauto.
    + right. eauto.
Qed.

Lemma placeMarkers_size (selectedId : option string)
  (locations : list LocationRecord) :
  forall markers : gmap string MarkerEntry,
    (size (foldl (placeMarker selectedId) markers locations)
     <= size markers + length (List.filter located locations))%nat /\
    (NoDup (map Loc.id locations) ->
     (forall r, In r locations -> markers !! Loc.id r = None) ->
     size (foldl (placeMarker selectedId) markers locations)
     = (size markers + length (List.filter located locations))%nat).
Proof.
  induction locations as [|x l IH]; intros markers; simpl.
  - split; [lia|]. intros _ _. lia.
  - destruct (IH (placeMarker selectedId markers x)) as [Hle Heq].
    assert (Hstep : (size (placeMarker selectedId markers x)
                     <= size markers + (if located x then 1 else 0))%nat /\
                    (markers !! Loc.id x = None ->
                     size (placeMarker selectedId markers x)
                     = (size markers + (if located x then 1 else 0))%nat)).
    { unfold placeMarker, located.
      destruct (Loc.latitude x), (Loc.longitude x); try (split; lia).
      split.
      - destruct (markers !! Loc.id x) eqn:Hx.
        + erewrite map_size_insert_Some by eauto. lia.
        + rewrite map_size_insert_None by exact Hx. lia.
      - intros Hx. rewrite map_size_insert_None by exact Hx. lia. }
    destruct Hstep as [Hstep1 Hstep2]. split.
    + destruct (located x); simpl; lia.
    + intros Hnd Hfresh. inversion Hnd as [|? ? Hnotin Hnd']; subst.
      rewrite Heq; [| exact Hnd' |].
      * rewrite Hstep2 by (apply Hfresh; now left).
        destruct (located x); simpl; lia.
      * intros r Hr. rewrite placeMarker_lookup.
        destruct (located x && String.eqb (Loc.id x) (Loc.id r)) eqn:Hx.
        -- apply andb_true_iff in Hx as [_ Hid]. apply String.eqb_eq in Hid.
           elim Hnotin. rewrite Hid. apply list_elem_of_In. now apply in_map.
        -- apply Hfresh. now right.
Qed.

(** X21. After the marker effect has run on a map that exists, the marker
    registry has an entry for an id exactly when a listed record with that
    id has both coordinates, so a record without resolved coordinates is
    listed but not mapped; a registered marker was placed at the
    (longitude, latitude) of such a record, labelled with its name, and
    given the selected look exactly when its id is the selected one; the
    registry has at most as many entries as there are located records, and
    exactly as many when the ids are distinct. *)
Theorem markers_for_located_records (locations : list LocationRecord)
  (selectedId : option string) :
  (forall id,
      is_Some (placeMarkers locations selectedId !! id) <->
      exists r, In r locations /\ Loc.id r = id /\ located r = true) /\
  (forall id m,
      placeMarkers locations selectedId !! id = Some m ->
      exists r latitude longitude,
        In r locations /\ Loc.id r = id /\
        Loc.latitude r = Some latitude /\
        Loc.longitude r = Some longitude /\
        lngLat m = (longitude, latitude) /\ label m = Loc.name r /\
        className m = markerClassNames (isSelectedId id selectedId)) /\
  (size (placeMarkers locations selectedId)
   <= length (List.filter located locations))%nat /\
  (NoDup (map Loc.id locations) ->
   size (placeMarkers locations selectedId)
   = length (List.filter located locations)).
Proof.
  unfold placeMarkers.
  assert (Hfrom : forall id m,
             foldl (placeMarker selectedId) ∅ locations !! id = Some m ->
             exists r latitude longitude,
               In r locations /\ Loc.id r = id /\
               Loc.latitude r = Some latitude /\
               Loc.longitude r = Some longitude /\
               m = mkMarker (longitude, latitude) (Loc.name r)
                     (markerClassNames (isSelectedId id selectedId))).
  { intros id m Hm.
    apply placeMarkers_from in Hm as [Hm|Hm]; [|exact Hm].
    now rewrite lookup_empty in Hm. }
  split; [|split; [|split]].
  - intros id. split.
    + intros [m Hm]. apply Hfrom in Hm as (r & la & lo & Hin & Hid & Hla
                                           & Hlo & _).
      exists r. repeat split; auto. unfold located. now rewrite Hla, Hlo.
    + intros H. apply placeMarkers_covers. now right.
  - intros id m Hm.
    apply Hfrom in Hm as (r & la & lo & Hin & Hid & Hla & Hlo & ->).
    exists r, la, lo. repeat split; auto.
  - destruct (placeMarkers_size selectedId locations ∅) as [Hle _].
    rewrite map_size_empty in Hle. exact Hle.
  - intros Hnd.
    destruct (placeMarkers_size selectedId locations ∅) as [_ Heq].
    rewrite Heq; [now rewrite map_size_empty | exact Hnd |].
    intros r _. apply lookup_empty.
Qed.

Lemma markers_for_located_records_witness :
  size (placeMarkers sampleMock (Some "mock-shelter")) = 1%nat.
Proof.
  destruct (markers_for_located_records sampleMock (Some "mock-shelter"))
    as (_ & _ & _ & Hsize).
  rewrite Hsize; [reflexivity|].
  apply (bool_decide_unpack _). vm_compute. reflexivity.
Defined.
